(** * circuit-breaker-lib: the breaker state machine and its registry

    A shallow embedding of [src/circuit-breaker.ts].

    - JavaScript numbers that hold counters and millisecond timestamps are
      integers here ([Z]).
    - Objects live in stores and are named by references, so that two
      holders of one configuration record see each other's writes.
    - [Date.now()] is an explicit argument [now] of every method that reads
      the clock.
    - [EventEmitter.emit] appends the notification to the trace that a
      method returns. *)

From Stdlib Require Import ZArith Lia.
From stdpp Require Import base option list strings gmap.

Local Open Scope Z_scope.

(** ** Declarations of [types.ts] *)

(** Modelled from the spec: [types.ts] is not among the sources.  The three
    states are the ones [circuit-breaker.ts] names ([CircuitState.CLOSED],
    [CircuitState.OPEN], [CircuitState.HALF_OPEN]); the [default:] arm of the
    [switch] in [canExecute] has no value left to match. *)
Inductive CircuitState : Type := CLOSED | OPEN | HALF_OPEN.

#[global] Instance CircuitState_eq_dec : EqDecision CircuitState.
Proof. solve_decision. Defined.

(** Modelled from the spec: [CircuitBreakerConfig] of [types.ts], with the
    three fields that [circuit-breaker.ts] reads. *)
Module Config.
Record t : Type := mk {
  failureThreshold : Z;
  recoveryTimeout : Z;
  halfOpenAttempts : Z
}.

(** [Partial<CircuitBreakerConfig>]: [None] is an absent property. *)
Record partial : Type := mkPartial {
  p_failureThreshold : option Z;
  p_recoveryTimeout : option Z;
  p_halfOpenAttempts : option Z
}.

(** [{ ...c, ...p }] *)
Definition spread (c : t) (p : partial) : t :=
  {| failureThreshold := default (failureThreshold c) (p_failureThreshold p);
     recoveryTimeout := default (recoveryTimeout c) (p_recoveryTimeout p);
     halfOpenAttempts := default (halfOpenAttempts c) (p_halfOpenAttempts p) |}.

Inductive field : Type := FailureThreshold | RecoveryTimeout | HalfOpenAttempts.

(** [c.f = v], an assignment by whoever holds the record *)
Definition assign (f : field) (v : Z) (c : t) : t :=
  match f with
  | FailureThreshold =>
      {| failureThreshold := v; recoveryTimeout := recoveryTimeout c;
         halfOpenAttempts := halfOpenAttempts c |}
  | RecoveryTimeout =>
      {| failureThreshold := failureThreshold c; recoveryTimeout := v;
         halfOpenAttempts := halfOpenAttempts c |}
  | HalfOpenAttempts =>
      {| failureThreshold := failureThreshold c;
         recoveryTimeout := recoveryTimeout c; halfOpenAttempts := v |}
  end.
End Config.

Abbreviation CircuitBreakerConfig := Config.t.

(** Modelled from the spec: [DEFAULT_CIRCUIT_BREAKER_CONFIG] of [types.ts]
    (failureThreshold=5, recoveryTimeout=60000ms, halfOpenAttempts=3). *)
Definition DEFAULT_CIRCUIT_BREAKER_CONFIG : CircuitBreakerConfig :=
  {| Config.failureThreshold := 5;
     Config.recoveryTimeout := 60000;
     Config.halfOpenAttempts := 3 |}.

(** ** Stores and references *)

Definition ref : Type := nat.
Bind Scope nat_scope with ref.

(** The payloads of the four notifications. *)
Inductive Event : Type :=
  | Opened (agentName : string) (failureCount threshold : Z)
  | Closed (agentName : string) (successCount : Z)
  | HalfOpened (agentName : string) (attemptNumber : Z)
  | WasReset (agentName : string).

(** The private fields of [class CircuitBreaker]; [config] is a reference to
    a configuration record. *)
Record CircuitBreaker : Type := mkBreaker {
  state : CircuitState;
  failureCount : Z;
  successCount : Z;
  lastFailureTime : Z;
  halfOpenAttempts : Z;
  config : ref;
  agentName : string
}.

Definition set_state (v : CircuitState) (b : CircuitBreaker) : CircuitBreaker :=
  mkBreaker v (failureCount b) (successCount b) (lastFailureTime b)
            (halfOpenAttempts b) (config b) (agentName b).
Definition set_failureCount (v : Z) (b : CircuitBreaker) : CircuitBreaker :=
  mkBreaker (state b) v (successCount b) (lastFailureTime b)
            (halfOpenAttempts b) (config b) (agentName b).
Definition set_successCount (v : Z) (b : CircuitBreaker) : CircuitBreaker :=
  mkBreaker (state b) (failureCount b) v (lastFailureTime b)
            (halfOpenAttempts b) (config b) (agentName b).
Definition set_lastFailureTime (v : Z) (b : CircuitBreaker) : CircuitBreaker :=
  mkBreaker (state b) (failureCount b) (successCount b) v
            (halfOpenAttempts b) (config b) (agentName b).
Definition set_halfOpenAttempts (v : Z) (b : CircuitBreaker) : CircuitBreaker :=
  mkBreaker (state b) (failureCount b) (successCount b) (lastFailureTime b)
            v (config b) (agentName b).
Definition set_config (v : ref) (b : CircuitBreaker) : CircuitBreaker :=
  mkBreaker (state b) (failureCount b) (successCount b) (lastFailureTime b)
            (halfOpenAttempts b) v (agentName b).

(** What a method of one breaker can see and change: the receiver's fields
    and the store of configuration records. *)
Record Machine : Type := mkMachine {
  this : CircuitBreaker;
  configs : list CircuitBreakerConfig
}.

(** ** The method monad

    A method maps the machine to a result, the machine afterwards and the
    notifications it emitted, in order.  [None] is the [TypeError] of reading
    a field through a reference that names no record. *)
Definition M (A : Type) : Type := Machine -> option (A * Machine * list Event).

#[global] Instance M_ret : MRet M := fun A a m => Some (a, m, []).

#[global] Instance M_bind : MBind M := fun A B f x m =>
  match x m with
  | Some (a, m1, e1) =>
      match f a m1 with
      | Some (b, m2, e2) => Some (b, m2, e1 ++ e2)
      | None => None
      end
  | None => None
  end.

Definition read {A : Type} (f : CircuitBreaker -> A) : M A :=
  fun m => Some (f (this m), m, []).

Definition write (f : CircuitBreaker -> CircuitBreaker) : M unit :=
  fun m => Some (tt, mkMachine (f (this m)) (configs m), []).

Definition emit (e : Event) : M unit :=
  fun m => Some (tt, m, [e]).

(** [this.config], dereferenced *)
Definition readConfig : M CircuitBreakerConfig :=
  fun m => match configs m !! config (this m) with
           | Some c => Some (c, m, [])
           | None => None
           end.

(** an object literal: a new record at the next free reference *)
Definition allocConfig (c : CircuitBreakerConfig) : M ref :=
  fun m => Some (length (configs m), mkMachine (this m) (configs m ++ [c]), []).

(** ** [class CircuitBreaker] *)

(** The constructor keeps the reference it is given.  A caller that omits
    [config] passes the reference of [DEFAULT_CIRCUIT_BREAKER_CONFIG]. *)
Definition new_CircuitBreaker (name : string) (cfg : ref) : CircuitBreaker :=
  {| state := CLOSED; failureCount := 0; successCount := 0;
     lastFailureTime := 0; halfOpenAttempts := 0;
     config := cfg; agentName := name |}.

Definition getState : M CircuitState := read state.
Definition isClosed : M bool := s ← read state; mret (bool_decide (s = CLOSED)).
Definition isOpen : M bool := s ← read state; mret (bool_decide (s = OPEN)).
Definition isHalfOpen : M bool := s ← read state; mret (bool_decide (s = HALF_OPEN)).
Definition getFailureCount : M Z := read failureCount.
Definition getSuccessCount : M Z := read successCount.

Definition shouldAttemptRecovery (now : Z) : M bool :=
  last ← read lastFailureTime;
  c ← readConfig;
  mret (now - last >=? Config.recoveryTimeout c).

Definition transitionToOpen : M unit :=
  s ← read state;
  if decide (s ≠ OPEN) then
    write (set_state OPEN);;
    write (set_halfOpenAttempts 0);;
    name ← read agentName;
    fc ← read failureCount;
    c ← readConfig;
    emit (Opened name fc (Config.failureThreshold c))
  else mret tt.

Definition transitionToClosed : M unit :=
  s ← read state;
  if decide (s ≠ CLOSED) then
    write (set_state CLOSED);;
    write (set_failureCount 0);;
    write (set_halfOpenAttempts 0);;
    name ← read agentName;
    sc ← read successCount;
    emit (Closed name sc)
  else mret tt.

Definition transitionToHalfOpen : M unit :=
  s ← read state;
  (if decide (s ≠ HALF_OPEN) then
     write (set_state HALF_OPEN);;
     write (set_halfOpenAttempts 0);;
     name ← read agentName;
     emit (HalfOpened name 0)
   else mret tt);;
  n ← read halfOpenAttempts;
  write (set_halfOpenAttempts (n + 1)).

Definition canExecute (now : Z) : M bool :=
  s ← read state;
  match s with
  | CLOSED => mret true
  | OPEN =>
      r ← shouldAttemptRecovery now;
      if r : bool then transitionToHalfOpen;; mret true else mret false
  | HALF_OPEN =>
      n ← read halfOpenAttempts;
      c ← readConfig;
      mret (n <? Config.halfOpenAttempts c)
  end.

Definition recordSuccess : M unit :=
  sc ← read successCount;
  write (set_successCount (sc + 1));;
  s ← read state;
  if decide (s = HALF_OPEN) then transitionToClosed
  else if decide (s = CLOSED) then
    fc ← read failureCount;
    write (set_failureCount (Z.max 0 (fc - 1)))
  else mret tt.

Definition recordFailure (now : Z) : M unit :=
  fc ← read failureCount;
  write (set_failureCount (fc + 1));;
  write (set_lastFailureTime now);;
  s ← read state;
  if decide (s = HALF_OPEN) then transitionToOpen
  else if decide (s = CLOSED) then
    fc' ← read failureCount;
    c ← readConfig;
    if fc' >=? Config.failureThreshold c then transitionToOpen else mret tt
  else mret tt.

Definition reset : M unit :=
  write (set_state CLOSED);;
  write (set_failureCount 0);;
  write (set_successCount 0);;
  write (set_halfOpenAttempts 0);;
  write (set_lastFailureTime 0);;
  name ← read agentName;
  emit (WasReset name).

(** [{ ...this.config }] *)
Definition getConfig : M ref :=
  c ← readConfig;
  allocConfig c.

(** [this.config = { ...this.config, ...config }] *)
Definition setConfig (p : Config.partial) : M unit :=
  c ← readConfig;
  l ← allocConfig (Config.spread c p);
  write (set_config l).

Module Status.
Record t : Type := mk {
  state : CircuitState;
  failureCount : Z;
  successCount : Z;
  canExecute : bool
}.
End Status.

(** The properties of the literal are evaluated in the order written, so
    the three fields are read before [canExecute] runs. *)
Definition getStatus (now : Z) : M Status.t :=
  s ← read state;
  fc ← read failureCount;
  sc ← read successCount;
  ce ← canExecute now;
  mret (Status.mk s fc sc ce).

(** ** The public surface of one breaker *)

Inductive Op : Type :=
  | GetState | IsClosed | IsOpen | IsHalfOpen
  | CanExecute (now : Z)
  | RecordSuccess
  | RecordFailure (now : Z)
  | Reset
  | GetFailureCount | GetSuccessCount
  | GetConfig
  | SetConfig (p : Config.partial)
  | GetStatus (now : Z).

(** One call, its result dropped. *)
Definition exec (o : Op) : M unit :=
  match o with
  | GetState => getState;; mret tt
  | IsClosed => isClosed;; mret tt
  | IsOpen => isOpen;; mret tt
  | IsHalfOpen => isHalfOpen;; mret tt
  | CanExecute now => canExecute now;; mret tt
  | RecordSuccess => recordSuccess
  | RecordFailure now => recordFailure now
  | Reset => reset
  | GetFailureCount => getFailureCount;; mret tt
  | GetSuccessCount => getSuccessCount;; mret tt
  | GetConfig => getConfig;; mret tt
  | SetConfig p => setConfig p
  | GetStatus now => getStatus now;; mret tt
  end.

(** What the code around a breaker can do to it: call a method, or assign
    to a field of a configuration record it holds a reference to. *)
Inductive Action : Type :=
  | Call (o : Op)
  | Assign (l : ref) (f : Config.field) (v : Z).

Definition assignField (l : ref) (f : Config.field) (v : Z) : M unit :=
  fun m => Some (tt, mkMachine (this m) (alter (Config.assign f v) l (configs m)), []).

Definition act (a : Action) : M unit :=
  match a with
  | Call o => exec o
  | Assign l f v => assignField l f v
  end.

(** The configuration the breaker's methods read. *)
Definition effectiveConfig (m : Machine) : option CircuitBreakerConfig :=
  configs m !! config (this m).

(** Permission queries at the given times, one after the other. *)
Fixpoint queries (nows : list Z) : M (list bool) :=
  match nows with
  | [] => mret []
  | now :: rest =>
      r ← canExecute now;
      rs ← queries rest;
      mret (r :: rs)
  end.

(** Failures reported at the given times, one after the other. *)
Fixpoint recordFailures (nows : list Z) : M unit :=
  match nows with
  | [] => mret tt
  | now :: rest => recordFailure now;; recordFailures rest
  end.

(** ** [class CircuitBreakerManager] *)

(** Both stores: configuration records and breaker instances. *)
Record World : Type := mkWorld {
  cfgHeap : list CircuitBreakerConfig;
  objHeap : list CircuitBreaker
}.

Record CircuitBreakerManager : Type := mkManager {
  breakers : gmap string ref;
  defaultConfig : ref
}.

Definition new_CircuitBreakerManager (dflt : ref) : CircuitBreakerManager :=
  {| breakers := ∅; defaultConfig := dflt |}.

(** [config || this.defaultConfig]: an omitted argument is [None]. *)
Definition getBreaker (name : string) (cfg : option ref)
    (mgr : CircuitBreakerManager) (w : World)
    : ref * CircuitBreakerManager * World :=
  match breakers mgr !! name with
  | Some l => (l, mgr, w)
  | None =>
      let l := length (objHeap w) in
      let b := new_CircuitBreaker name (default (defaultConfig mgr) cfg) in
      (l,
       {| breakers := <[name := l]> (breakers mgr);
          defaultConfig := defaultConfig mgr |},
       {| cfgHeap := cfgHeap w; objHeap := objHeap w ++ [b] |})
  end.

Definition removeBreaker (name : string) (mgr : CircuitBreakerManager)
    : bool * CircuitBreakerManager :=
  (bool_decide (is_Some (breakers mgr !! name)),
   {| breakers := delete name (breakers mgr);
      defaultConfig := defaultConfig mgr |}).

Definition setDefaultConfig (cfg : ref) (mgr : CircuitBreakerManager)
    : CircuitBreakerManager :=
  {| breakers := breakers mgr; defaultConfig := cfg |}.

(** A method called on the instance at [l]. *)
Definition invoke {A : Type} (l : ref) (f : M A) (w : World)
    : option (A * World * list Event) :=
  match objHeap w !! l with
  | Some b =>
      match f (mkMachine b (cfgHeap w)) with
      | Some (a, m, evs) =>
          Some (a, mkWorld (configs m) (<[l := this m]> (objHeap w)), evs)
      | None => None
      end
  | None => None
  end.

(** ** Runs *)

(** Calls on one breaker, one after the other. *)
Fixpoint execs (os : list Op) : M unit :=
  match os with
  | [] => mret tt
  | o :: rest => exec o;; execs rest
  end.

(** ** The methods of the manager that iterate

    A [Map] iterates in insertion order, which [gmap] does not keep.  The
    methods that iterate therefore take what they visit, in the order of the
    visit: the reference of every instance, with its name where the callback
    uses it, and with the value of [Date.now()] at the query made on it. *)

Definition enumerates (es : list (string * ref)) (mgr : CircuitBreakerManager)
    : Prop :=
  es ≡ₚ map_to_list (breakers mgr).

(** [this.breakers.forEach(breaker => breaker.reset())] *)
Fixpoint resetAll (es : list (string * ref)) (w : World)
    : option (World * list Event) :=
  match es with
  | [] => Some (w, [])
  | (_, l) :: rest =>
      match invoke l reset w with
      | Some (_, w1, e1) =>
          match resetAll rest w1 with
          | Some (w2, e2) => Some (w2, e1 ++ e2)
          | None => None
          end
      | None => None
      end
  end.


(** [getAvailableAgents] visits every instance and pushes the names of
    those that permit. *)
Fixpoint getAvailableAgents (qs : list (string * ref * Z)) (w : World)
    : option (list string * World * list Event) :=
  match qs with
  | [] => Some ([], w, [])
  | (name, l, now) :: rest =>
      match invoke l (canExecute now) w with
      | Some (r, w1, e1) =>
          match getAvailableAgents rest w1 with
          | Some (names, w2, e2) =>
              Some (if r then name :: names else names, w2, e1 ++ e2)
          | None => None
          end
      | None => None
      end
  end.

(** [getAllStatus] fills a new [Map], here the entries in the order they are
    set. *)
Fixpoint getAllStatus (qs : list (string * ref * Z)) (w : World)
    : option (list (string * Status.t) * World * list Event) :=
  match qs with
  | [] => Some ([], w, [])
  | (name, l, now) :: rest =>
      match invoke l (getStatus now) w with
      | Some (st, w1, e1) =>
          match getAllStatus rest w1 with
          | Some (sts, w2, e2) => Some ((name, st) :: sts, w2, e1 ++ e2)
          | None => None
          end
      | None => None
      end
  end.

(** ** Vocabulary of the properties *)

(** The moves of the state machine: from breaker [b] under configuration
    [c], operation [o] leads to another state. *)
Inductive edge (c : CircuitBreakerConfig) (b : CircuitBreaker)
    : Op -> CircuitState -> Prop :=
  | edge_trip now :
      state b = CLOSED ->
      Config.failureThreshold c <= failureCount b + 1 ->
      edge c b (RecordFailure now) OPEN
  | edge_probe_failed now :
      state b = HALF_OPEN ->
      edge c b (RecordFailure now) OPEN
  | edge_probe now :
      state b = OPEN ->
      Config.recoveryTimeout c <= now - lastFailureTime b ->
      edge c b (CanExecute now) HALF_OPEN
  | edge_probe_by_status now :
      state b = OPEN ->
      Config.recoveryTimeout c <= now - lastFailureTime b ->
      edge c b (GetStatus now) HALF_OPEN
  | edge_recovered :
      state b = HALF_OPEN ->
      edge c b RecordSuccess CLOSED
  | edge_reset :
      state b <> CLOSED ->
      edge c b Reset CLOSED.

(** The notification that announces the state of [b]. *)
Definition announcement (c : CircuitBreakerConfig) (b : CircuitBreaker) : Event :=
  match state b with
  | OPEN => Opened (agentName b) (failureCount b) (Config.failureThreshold c)
  | CLOSED => Closed (agentName b) (successCount b)
  | HALF_OPEN => HalfOpened (agentName b) 0
  end.

(** What holds of the counters of a breaker however it was used. *)
Definition consistent (b : CircuitBreaker) : Prop :=
  0 <= failureCount b /\
  0 <= successCount b /\
  halfOpenAttempts b = if decide (state b = HALF_OPEN) then 1 else 0.

Definition isRecordSuccess (o : Op) : bool :=
  match o with RecordSuccess => true | _ => false end.

Definition isRecordFailure (o : Op) : bool :=
  match o with RecordFailure _ => true | _ => false end.

Definition isReset (o : Op) : bool :=
  match o with Reset => true | _ => false end.

(** The properties of [q] over those of [p], as in [{ ...p, ...q }]. *)
Definition partial_over (q p : Config.partial) : Config.partial :=
  {| Config.p_failureThreshold :=
       match Config.p_failureThreshold q with
       | Some v => Some v
       | None => Config.p_failureThreshold p
       end;
     Config.p_recoveryTimeout :=
       match Config.p_recoveryTimeout q with
       | Some v => Some v
       | None => Config.p_recoveryTimeout p
       end;
     Config.p_halfOpenAttempts :=
       match Config.p_halfOpenAttempts q with
       | Some v => Some v
       | None => Config.p_halfOpenAttempts p
       end |}.

(** ** Vocabulary of the registry *)

(** The reference [l] names an instance called [name] whose configuration
    reference names a record. *)
Definition instance_ok (w : World) (name : string) (l : ref) : Prop :=
  exists b,
    objHeap w !! l = Some b /\
    agentName b = name /\
    is_Some (cfgHeap w !! config b).

(** Every entry of the registry is such an instance, no instance is entered
    under two names, and the default configuration is a record. *)
Definition registry_ok (mgr : CircuitBreakerManager) (w : World) : Prop :=
  (forall name l, breakers mgr !! name = Some l -> instance_ok w name l) /\
  (forall n1 n2 l,
     breakers mgr !! n1 = Some l -> breakers mgr !! n2 = Some l -> n1 = n2) /\
  is_Some (cfgHeap w !! defaultConfig mgr).

(** The configuration reference of every instance names a record. *)
Definition store_ok (w : World) : Prop :=
  forall l b, objHeap w !! l = Some b -> is_Some (cfgHeap w !! config b).

(** What the code around a registry does with it.  A configuration is
    passed by reference; a method is called on an instance that
    [getBreaker] returned. *)
Inductive Request : Type :=
  | GetBreaker (name : string) (cfg : option ref)
  | RemoveBreaker (name : string)
  | SetDefaultConfig (cfg : ref)
  | OnBreaker (l : ref) (o : Op).

(** One request.  [None] is a request that cannot be made: a reference that
    names nothing. *)
Definition serve (r : Request) (s : CircuitBreakerManager * World)
    : option (CircuitBreakerManager * World) :=
  let '(mgr, w) := s in
  match r with
  | GetBreaker name cfg =>
      match cfg with
      | Some l =>
          if cfgHeap w !! l is Some _
          then let '(_, mgr', w') := getBreaker name cfg mgr w in Some (mgr', w')
          else None
      | None => let '(_, mgr', w') := getBreaker name cfg mgr w in Some (mgr', w')
      end
  | RemoveBreaker name => Some ((removeBreaker name mgr).2, w)
  | SetDefaultConfig cfg =>
      if cfgHeap w !! cfg is Some _
      then Some (setDefaultConfig cfg mgr, w)
      else None
  | OnBreaker l o =>
      match invoke l (exec o) w with
      | Some (_, w', _) => Some (mgr, w')
      | None => None
      end
  end.

Fixpoint serves (rs : list Request) (s : CircuitBreakerManager * World)
    : option (CircuitBreakerManager * World) :=
  match rs with
  | [] => Some s
  | r :: rest =>
      match serve r s with
      | Some s' => serves rest s'
      | None => None
      end
  end.

(** The answer that the instance at [l] would give to a query at [now]. *)
Definition answer (w : World) (l : ref) (now : Z) : option bool :=
  match invoke l (canExecute now) w with
  | Some (r, _, _) => Some r
  | None => None
  end.

(** ** Machines used in the examples *)

(** [new CircuitBreaker("svc")], the default configuration at reference 0 *)
Definition fresh : Machine :=
  mkMachine (new_CircuitBreaker "svc" 0) [DEFAULT_CIRCUIT_BREAKER_CONFIG].

(** the same breaker, open since a failure at time 0 *)
Definition tripped : Machine :=
  mkMachine (mkBreaker OPEN 5 0 0 0 0 "svc") [DEFAULT_CIRCUIT_BREAKER_CONFIG].

(** four failures counted, one short of the default threshold *)
Definition strained : Machine :=
  mkMachine (mkBreaker CLOSED 4 0 0 0 0 "svc") [DEFAULT_CIRCUIT_BREAKER_CONFIG].

(** Closed again after four failures and one success: three failures are
    still counted *)
Definition forgiven : Machine :=
  mkMachine (mkBreaker CLOSED 3 1 40 0 0 "svc") [DEFAULT_CIRCUIT_BREAKER_CONFIG].

(** tripped by the fifth failure, reported at time [now] *)
Definition tripped_at (now : Z) : Machine :=
  mkMachine (mkBreaker OPEN 5 0 now 0 0 "svc") [DEFAULT_CIRCUIT_BREAKER_CONFIG].

(** after the query that left Open *)
Definition probing : Machine :=
  mkMachine (mkBreaker HALF_OPEN 5 0 0 1 0 "svc") [DEFAULT_CIRCUIT_BREAKER_CONFIG].

(** [new CircuitBreaker("svc", cfg)] with [cfg] at reference 1, the record
    [{ failureThreshold: 2, recoveryTimeout: 1000, halfOpenAttempts: 1 }] *)
Definition configured : Machine :=
  mkMachine (new_CircuitBreaker "svc" 1)
            [DEFAULT_CIRCUIT_BREAKER_CONFIG; Config.mk 2 1000 1].

(** a registry that manages the tripped breaker as "svc" *)
Definition managing : CircuitBreakerManager :=
  mkManager {[ "svc" := 0%nat ]} 0.

Definition managed : World :=
  mkWorld [DEFAULT_CIRCUIT_BREAKER_CONFIG; Config.mk 2 1000 1] [this tripped].

(** * Properties *)

(** ** Equations of the methods, by state *)

Ltac unfold_methods :=
  unfold exec, act, assignField, getStatus, setConfig, getConfig, reset,
    recordFailure, recordSuccess, canExecute, transitionToHalfOpen,
    transitionToClosed, transitionToOpen, shouldAttemptRecovery,
    getSuccessCount, getFailureCount, isHalfOpen, isOpen, isClosed, getState,
    allocConfig, readConfig, emit, write, read, effectiveConfig,
    mbind, mret, M_bind, M_ret in *.

Ltac step := cbn -[Z.add Z.sub Z.max Z.geb Z.ltb lookup alter] in *.

Ltac use_config :=
  match goal with Hc : _ !! _ = Some _ |- _ => rewrite Hc end.

Ltac run :=
  unfold_methods; step; subst; step;
  repeat (first [use_config | case_decide; try congruence]; step).

Ltac split_geb x y :=
  destruct (Z.geb_spec x y); try lia; run; try reflexivity.

Section StateEquations.
Variable b : CircuitBreaker.
Variable h : list CircuitBreakerConfig.

Lemma canExecute_CLOSED now :
  state b = CLOSED ->
  canExecute now (mkMachine b h) = Some (true, mkMachine b h, []).
Proof.
  intros Hs. unfold canExecute, read, mbind, M_bind. cbn. now rewrite Hs.
Qed.

Lemma recordSuccess_CLOSED :
  state b = CLOSED ->
  recordSuccess (mkMachine b h) =
  Some (tt,
        mkMachine (set_failureCount (Z.max 0 (failureCount b - 1))
                     (set_successCount (successCount b + 1) b)) h,
        []).
Proof.
  intros Hs. destruct b as [s fc sc lft hoa cfg name]. now run.
Qed.

Lemma recordSuccess_OPEN :
  state b = OPEN ->
  recordSuccess (mkMachine b h) =
  Some (tt, mkMachine (set_successCount (successCount b + 1) b) h, []).
Proof.
  intros Hs. destruct b as [s fc sc lft hoa cfg name]. now run.
Qed.

Lemma recordSuccess_HALF_OPEN :
  state b = HALF_OPEN ->
  recordSuccess (mkMachine b h) =
  Some (tt,
        mkMachine (set_halfOpenAttempts 0 (set_failureCount 0 (set_state CLOSED
                     (set_successCount (successCount b + 1) b)))) h,
        [Closed (agentName b) (successCount b + 1)]).
Proof.
  intros Hs. destruct b as [s fc sc lft hoa cfg name]. now run.
Qed.

Lemma recordFailure_OPEN now :
  state b = OPEN ->
  recordFailure now (mkMachine b h) =
  Some (tt,
        mkMachine (set_lastFailureTime now
                     (set_failureCount (failureCount b + 1) b)) h,
        []).
Proof.
  intros Hs. destruct b as [s fc sc lft hoa cfg name]. now run.
Qed.

Lemma reset_eq :
  reset (mkMachine b h) =
  Some (tt, mkMachine (new_CircuitBreaker (agentName b) (config b)) h,
        [WasReset (agentName b)]).
Proof. destruct b as [s fc sc lft hoa cfg name]. now run. Qed.

Lemma getStatus_eq now :
  getStatus now (mkMachine b h) =
  match canExecute now (mkMachine b h) with
  | Some (r, m, evs) =>
      Some (Status.mk (state b) (failureCount b) (successCount b) r, m, evs)
  | None => None
  end.
Proof.
  unfold getStatus, read, mbind, mret, M_bind, M_ret. cbn.
  destruct (canExecute now (mkMachine b h)) as [[[r m] evs]|]; [|reflexivity].
  now rewrite app_nil_r.
Qed.
End StateEquations.

(** The methods that read the configuration, on a breaker whose [config]
    names the record [c]. *)
Section ConfigEquations.
Variable b : CircuitBreaker.
Variable h : list CircuitBreakerConfig.
Variable c : CircuitBreakerConfig.
Hypothesis Hc : h !! config b = Some c.

Lemma canExecute_OPEN_early now :
  state b = OPEN ->
  now - lastFailureTime b < Config.recoveryTimeout c ->
  canExecute now (mkMachine b h) = Some (false, mkMachine b h, []).
Proof.
  intros Hs Hlt. destruct b as [s fc sc lft hoa cfg name]. run.
  split_geb (now - lft) (Config.recoveryTimeout c).
Qed.

Lemma canExecute_OPEN_late now :
  state b = OPEN ->
  Config.recoveryTimeout c <= now - lastFailureTime b ->
  canExecute now (mkMachine b h) =
  Some (true, mkMachine (set_halfOpenAttempts 1 (set_state HALF_OPEN b)) h,
        [HalfOpened (agentName b) 0]).
Proof.
  intros Hs Hle. destruct b as [s fc sc lft hoa cfg name]. run.
  split_geb (now - lft) (Config.recoveryTimeout c).
Qed.

Lemma canExecute_HALF_OPEN now :
  state b = HALF_OPEN ->
  canExecute now (mkMachine b h) =
  Some (halfOpenAttempts b <? Config.halfOpenAttempts c, mkMachine b h, []).
Proof.
  intros Hs. destruct b as [s fc sc lft hoa cfg name]. now run.
Qed.

Lemma recordFailure_CLOSED_below now :
  state b = CLOSED ->
  failureCount b + 1 < Config.failureThreshold c ->
  recordFailure now (mkMachine b h) =
  Some (tt,
        mkMachine (set_lastFailureTime now
                     (set_failureCount (failureCount b + 1) b)) h,
        []).
Proof.
  intros Hs Hlt. destruct b as [s fc sc lft hoa cfg name]. run.
  split_geb (fc + 1) (Config.failureThreshold c).
Qed.

Lemma recordFailure_CLOSED_reached now :
  state b = CLOSED ->
  Config.failureThreshold c <= failureCount b + 1 ->
  recordFailure now (mkMachine b h) =
  Some (tt,
        mkMachine (set_halfOpenAttempts 0 (set_state OPEN
                     (set_lastFailureTime now
                        (set_failureCount (failureCount b + 1) b)))) h,
        [Opened (agentName b) (failureCount b + 1) (Config.failureThreshold c)]).
Proof.
  intros Hs Hle. destruct b as [s fc sc lft hoa cfg name]. run.
  split_geb (fc + 1) (Config.failureThreshold c).
Qed.

Lemma recordFailure_HALF_OPEN now :
  state b = HALF_OPEN ->
  recordFailure now (mkMachine b h) =
  Some (tt,
        mkMachine (set_halfOpenAttempts 0 (set_state OPEN
                     (set_lastFailureTime now
                        (set_failureCount (failureCount b + 1) b)))) h,
        [Opened (agentName b) (failureCount b + 1) (Config.failureThreshold c)]).
Proof.
  intros Hs. destruct b as [s fc sc lft hoa cfg name]. now run.
Qed.

Lemma getConfig_eq :
  getConfig (mkMachine b h) = Some (length h, mkMachine b (h ++ [c]), []).
Proof. destruct b as [s fc sc lft hoa cfg name]. now run. Qed.

Lemma setConfig_eq p :
  setConfig p (mkMachine b h) =
  Some (tt, mkMachine (set_config (length h) b) (h ++ [Config.spread c p]), []).
Proof. destruct b as [s fc sc lft hoa cfg name]. now run. Qed.
End ConfigEquations.

(** Dropping the result of a method keeps its effects. *)
Lemma drop_result {A : Type} (f : M A) (m : Machine) :
  (f ;; mret tt) m =
  match f m with Some (_, m', evs) => Some (tt, m', evs) | None => None end.
Proof.
  unfold mbind, mret, M_bind, M_ret.
  destruct (f m) as [[[a m'] evs]|]; [|reflexivity]. now rewrite app_nil_r.
Qed.

Ltac method_eq :=
  first
    [ erewrite canExecute_CLOSED by eassumption
    | erewrite canExecute_OPEN_early by (eassumption || lia)
    | erewrite canExecute_OPEN_late by (eassumption || lia)
    | erewrite canExecute_HALF_OPEN by eassumption
    | erewrite recordSuccess_CLOSED by eassumption
    | erewrite recordSuccess_OPEN by eassumption
    | erewrite recordSuccess_HALF_OPEN by eassumption
    | erewrite recordFailure_CLOSED_below by (eassumption || lia)
    | erewrite recordFailure_CLOSED_reached by (eassumption || lia)
    | erewrite recordFailure_OPEN by eassumption
    | erewrite recordFailure_HALF_OPEN by eassumption
    | erewrite reset_eq by eassumption
    | erewrite getConfig_eq by eassumption
    | erewrite setConfig_eq by eassumption ].

Ltac method_eq_in H :=
  first
    [ erewrite canExecute_CLOSED in H by eassumption
    | erewrite canExecute_OPEN_early in H by (eassumption || lia)
    | erewrite canExecute_OPEN_late in H by (eassumption || lia)
    | erewrite canExecute_HALF_OPEN in H by eassumption
    | erewrite recordSuccess_CLOSED in H by eassumption
    | erewrite recordSuccess_OPEN in H by eassumption
    | erewrite recordSuccess_HALF_OPEN in H by eassumption
    | erewrite recordFailure_CLOSED_below in H by (eassumption || lia)
    | erewrite recordFailure_CLOSED_reached in H by (eassumption || lia)
    | erewrite recordFailure_OPEN in H by eassumption
    | erewrite recordFailure_HALF_OPEN in H by eassumption
    | erewrite reset_eq in H by eassumption
    | erewrite getConfig_eq in H by eassumption
    | erewrite setConfig_eq in H by eassumption ].

(** All the ways a call can go on a breaker whose configuration reference
    names the record [c]: by method, by state and by the outcome of the
    comparison the method makes; [H] becomes the equation of that case. *)
Ltac exec_inv H b c :=
  destruct (Z.lt_ge_cases (failureCount b + 1) (Config.failureThreshold c));
  match type of H with
  | exec ?o _ = _ =>
      destruct o as [ | | | |now| |now| | | | | |now]; cbn [exec] in H;
      rewrite ?drop_result, ?getStatus_eq in H;
      try destruct (Z.lt_ge_cases (now - lastFailureTime b)
                                  (Config.recoveryTimeout c));
      destruct (state b) eqn:?;
      first [ method_eq_in H | cbv in H ];
      injection H as <- <-
  end.

(** A call never fails on such a breaker. *)
Lemma exec_total o b h c :
  h !! config b = Some c -> is_Some (exec o (mkMachine b h)).
Proof.
  intros Hc.
  destruct (Z.lt_ge_cases (failureCount b + 1) (Config.failureThreshold c));
  destruct o as [ | | | |now| |now| | | | | |now]; cbn [exec];
  rewrite ?drop_result, ?getStatus_eq;
  try (eexists; reflexivity);
  try destruct (Z.lt_ge_cases (now - lastFailureTime b)
                              (Config.recoveryTimeout c));
  destruct (state b) eqn:Hs; method_eq; eexists; reflexivity.
Qed.

(** ** The claims *)

(** C4. A permission query on an Open breaker made less than
    [recoveryTimeout] after [lastFailureTime] answers false and changes
    nothing; made at least [recoveryTimeout] after it, the query answers true
    and the breaker is HalfOpen afterwards. *)
Theorem open_gated_by_recovery_timeout (m : Machine) (c : CircuitBreakerConfig) (now : Z) :
  effectiveConfig m = Some c ->
  state (this m) = OPEN ->
  (now - lastFailureTime (this m) < Config.recoveryTimeout c ->
   canExecute now m = Some (false, m, [])) /\
  (Config.recoveryTimeout c <= now - lastFailureTime (this m) ->
   exists m' evs,
     canExecute now m = Some (true, m', evs) /\ state (this m') = HALF_OPEN).
Proof.
  destruct m as [b h]. unfold effectiveConfig. cbn [this configs].
  intros Hc Hs. split; intros Ht.
  - now apply canExecute_OPEN_early with (c := c).
  - eexists _, _. split.
    + now apply canExecute_OPEN_late with (c := c).
    + reflexivity.
Qed.

Lemma open_gated_by_recovery_timeout_witness :
  canExecute 59999 tripped = Some (false, tripped, []) /\
  exists m' evs,
    canExecute 60000 tripped = Some (true, m', evs) /\ state (this m') = HALF_OPEN.
Proof.
  split.
  - apply (open_gated_by_recovery_timeout tripped DEFAULT_CIRCUIT_BREAKER_CONFIG 59999);
      [reflexivity | reflexivity | simpl; lia].
  - apply (open_gated_by_recovery_timeout tripped DEFAULT_CIRCUIT_BREAKER_CONFIG 60000);
      [reflexivity | reflexivity | simpl; lia].
Defined.

(** C5. A success reported to a Closed breaker lowers [failureCount] by one,
    but not below 0, and the breaker stays Closed. *)
Theorem success_in_closed_forgives_one (m : Machine) :
  state (this m) = CLOSED ->
  exists m',
    recordSuccess m = Some (tt, m', []) /\
    failureCount (this m') = Z.max 0 (failureCount (this m) - 1) /\
    0 <= failureCount (this m') /\
    state (this m') = CLOSED.
Proof.
  destruct m as [b h]. cbn [this]. intros Hs.
  eexists. split; [now apply recordSuccess_CLOSED|].
  cbn. repeat split; [lia | exact Hs].
Qed.

(** The scenario of C5: threshold 5, four failures, then one success. *)
Lemma success_in_closed_forgives_one_witness :
  exists m4 m',
    recordFailures [10; 20; 30; 40] fresh = Some (tt, m4, []) /\
    recordSuccess m4 = Some (tt, m', []) /\
    failureCount (this m') = 3 /\
    state (this m') = CLOSED.
Proof.
  exists (mkMachine (mkBreaker CLOSED 4 0 40 0 0 "svc") [DEFAULT_CIRCUIT_BREAKER_CONFIG]).
  destruct (success_in_closed_forgives_one
              (mkMachine (mkBreaker CLOSED 4 0 40 0 0 "svc")
                         [DEFAULT_CIRCUIT_BREAKER_CONFIG]) eq_refl)
    as (m' & Hrun & Hfc & _ & Hst).
  exists m'. split; [reflexivity|]. split; [exact Hrun|]. split; [exact Hfc | exact Hst].
Defined.

(** C7. [getStatus] runs the permission query: its effects are those of
    [canExecute], its [canExecute] field is the query's answer.  On an Open
    breaker whose recovery timeout has elapsed it therefore moves the breaker
    to HalfOpen; in every other situation the breaker is unchanged. *)
Theorem getStatus_runs_the_query (m : Machine) (c : CircuitBreakerConfig) (now : Z) :
  effectiveConfig m = Some c ->
  (exists st r m' evs,
     getStatus now m = Some (st, m', evs) /\
     canExecute now m = Some (r, m', evs) /\
     Status.canExecute st = r /\
     Status.state st = state (this m)) /\
  (state (this m) = OPEN ->
   Config.recoveryTimeout c <= now - lastFailureTime (this m) ->
   exists st m' evs,
     getStatus now m = Some (st, m', evs) /\ state (this m') = HALF_OPEN) /\
  (~ (state (this m) = OPEN /\
      Config.recoveryTimeout c <= now - lastFailureTime (this m)) ->
   exists st, getStatus now m = Some (st, m, [])).
Proof.
  destruct m as [b h]. unfold effectiveConfig. cbn [this configs]. intros Hc.
  rewrite getStatus_eq.
  destruct (Z.lt_ge_cases (now - lastFailureTime b) (Config.recoveryTimeout c));
    destruct (state b) eqn:Hs; method_eq;
    (split; [eexists _, _, _, _; repeat split; reflexivity|]);
    (split; [intros; try discriminate; try lia; eexists _, _, _; split; reflexivity|]);
    intros Hn; try (eexists; reflexivity).
  exfalso. apply Hn. split; [reflexivity | lia].
Qed.

Lemma getStatus_runs_the_query_witness :
  exists st m' evs,
    getStatus 60000 tripped = Some (st, m', evs) /\ state (this m') = HALF_OPEN.
Proof.
  apply (getStatus_runs_the_query tripped DEFAULT_CIRCUIT_BREAKER_CONFIG 60000 eq_refl);
    [reflexivity | simpl; lia].
Defined.

(** *** Failures in a row *)

Lemma recordFailures_app (l1 l2 : list Z) (m : Machine) :
  recordFailures (l1 ++ l2) m =
  match recordFailures l1 m with
  | Some (_, m1, e1) =>
      match recordFailures l2 m1 with
      | Some (_, m2, e2) => Some (tt, m2, e1 ++ e2)
      | None => None
      end
  | None => None
  end.
Proof.
  revert m. induction l1 as [|now l1 IH]; intros m; cbn [recordFailures app].
  - cbn. now destruct (recordFailures l2 m) as [[[[] m2] e2]|].
  - unfold mbind, M_bind.
    destruct (recordFailure now m) as [[[[] m1] e1]|]; [|reflexivity].
    rewrite IH.
    destruct (recordFailures l1 m1) as [[[[] m2] e2]|]; [|reflexivity].
    destruct (recordFailures l2 m2) as [[[[] m3] e3]|]; [|reflexivity].
    now rewrite app_assoc.
Qed.

(** Below the threshold a Closed breaker only counts. *)
Lemma recordFailures_below (nows : list Z) :
  forall (b : CircuitBreaker) (h : list CircuitBreakerConfig) (c : CircuitBreakerConfig),
    h !! config b = Some c ->
    state b = CLOSED ->
    failureCount b + Z.of_nat (length nows) < Config.failureThreshold c ->
    exists b',
      recordFailures nows (mkMachine b h) = Some (tt, mkMachine b' h, []) /\
      state b' = CLOSED /\
      failureCount b' = failureCount b + Z.of_nat (length nows) /\
      config b' = config b /\
      agentName b' = agentName b.
Proof.
  induction nows as [|now nows IH]; intros b h c Hc Hs Hlt.
  - exists b. cbn [length]. repeat split; try assumption; try reflexivity; lia.
  - cbn [length] in Hlt. cbn [recordFailures]. unfold mbind, M_bind at 1.
    rewrite (recordFailure_CLOSED_below b h c Hc now Hs) by lia.
    destruct (IH (set_lastFailureTime now
                    (set_failureCount (failureCount b + 1) b)) h c)
      as (b' & Hrun & Hs' & Hfc & Hcfg & Hname); [exact Hc | exact Hs | cbn; lia |].
    exists b'. fold (recordFailures nows). rewrite Hrun.
    cbn in Hfc, Hcfg, Hname. cbn [length]. repeat split; try assumption. lia.
Qed.

(** An Open breaker stays Open under failures. *)
Lemma recordFailures_OPEN (nows : list Z) :
  forall (b : CircuitBreaker) (h : list CircuitBreakerConfig),
    state b = OPEN ->
    exists b',
      recordFailures nows (mkMachine b h) = Some (tt, mkMachine b' h, []) /\
      state b' = OPEN.
Proof.
  induction nows as [|now nows IH]; intros b h Hs.
  - now exists b.
  - cbn [recordFailures]. unfold mbind, M_bind at 1.
    rewrite (recordFailure_OPEN b h now Hs).
    destruct (IH (set_lastFailureTime now
                    (set_failureCount (failureCount b + 1) b)) h Hs)
      as (b' & Hrun & Hs').
    exists b'. rewrite Hrun. now split.
Qed.

(** Failures open a Closed breaker as soon as the count reaches the
    threshold, and it is Open after the rest of them. *)
Lemma recordFailures_reaching (nows : list Z) :
  forall (b : CircuitBreaker) (h : list CircuitBreakerConfig) (c : CircuitBreakerConfig),
    h !! config b = Some c ->
    state b = CLOSED ->
    (0 < length nows)%nat ->
    Config.failureThreshold c <= failureCount b + Z.of_nat (length nows) ->
    exists m' evs,
      recordFailures nows (mkMachine b h) = Some (tt, m', evs) /\
      state (this m') = OPEN.
Proof.
  induction nows as [|now nows IH]; intros b h c Hc Hs Hlen Hreach.
  - cbn in Hlen. lia.
  - cbn [length] in Hreach. cbn [recordFailures]. unfold mbind, M_bind at 1.
    destruct (Z.lt_ge_cases (failureCount b + 1) (Config.failureThreshold c))
      as [Hbelow|Hreached].
    + rewrite (recordFailure_CLOSED_below b h c Hc now Hs Hbelow).
      destruct (IH (set_lastFailureTime now
                      (set_failureCount (failureCount b + 1) b)) h c)
        as (m' & evs & Hrun & Hs'); [exact Hc | exact Hs | | cbn; lia |].
      { destruct nows; cbn [length] in *; lia. }
      exists m', evs. rewrite Hrun. now split.
    + rewrite (recordFailure_CLOSED_reached b h c Hc now Hs Hreached).
      destruct (recordFailures_OPEN nows
                  (set_halfOpenAttempts 0 (set_state OPEN
                     (set_lastFailureTime now
                        (set_failureCount (failureCount b + 1) b)))) h eq_refl)
        as (b' & Hrun & Hs').
      eexists _, _. rewrite Hrun. split; [reflexivity | exact Hs'].
Qed.

(** C3 as stated fails: a Closed breaker may already count failures.  After
    four failures and one success the default breaker is Closed with
    [failureCount = 3]; two more failures open it, so the four failures that
    are one fewer than the threshold of 5 do not leave it Closed. *)
Lemma counted_failures_open_sooner :
  (execs [RecordFailure 10; RecordFailure 20; RecordFailure 30; RecordFailure 40;
          RecordSuccess] fresh = Some (tt, forgiven, []) /\
   state (this forgiven) = CLOSED /\
   effectiveConfig forgiven = Some DEFAULT_CIRCUIT_BREAKER_CONFIG /\
   recordFailures [50; 60; 70; 80] forgiven =
     Some (tt,
           mkMachine (mkBreaker OPEN 7 1 80 0 0 "svc") [DEFAULT_CIRCUIT_BREAKER_CONFIG],
           [Opened "svc" 5 5])) /\
  ~ (forall (m : Machine) (c : CircuitBreakerConfig) (nows : list Z),
       effectiveConfig m = Some c ->
       state (this m) = CLOSED ->
       1 <= Config.failureThreshold c ->
       (Z.of_nat (length nows) = Config.failureThreshold c ->
        exists m' evs,
          recordFailures nows m = Some (tt, m', evs) /\ state (this m') = OPEN) /\
       (Z.of_nat (length nows) = Config.failureThreshold c - 1 ->
        exists m' evs,
          recordFailures nows m = Some (tt, m', evs) /\ state (this m') = CLOSED)).
Proof.
  split; [repeat split|].
  intros Hclaim.
  destruct (Hclaim forgiven DEFAULT_CIRCUIT_BREAKER_CONFIG [50; 60; 70; 80]
              eq_refl eq_refl ltac:(simpl; lia)) as [_ Hfewer].
  destruct (Hfewer eq_refl) as (m' & evs & Hrun & Hs).
  vm_compute in Hrun. injection Hrun as <- _. discriminate Hs.
Qed.

(** C3, amended.  As many failures in a row as [failureThreshold] open
    every Closed breaker (its [failureCount] not negative); one fewer leave
    Closed a breaker that was Closed with no failure counted, as it is after
    construction, [reset] or recovery. *)
Theorem threshold_failures_open (m : Machine) (c : CircuitBreakerConfig) (nows : list Z) :
  effectiveConfig m = Some c ->
  state (this m) = CLOSED ->
  0 <= failureCount (this m) ->
  1 <= Config.failureThreshold c ->
  (Z.of_nat (length nows) = Config.failureThreshold c ->
   exists m' evs,
     recordFailures nows m = Some (tt, m', evs) /\ state (this m') = OPEN) /\
  (failureCount (this m) = 0 ->
   Z.of_nat (length nows) = Config.failureThreshold c - 1 ->
   exists m' evs,
     recordFailures nows m = Some (tt, m', evs) /\ state (this m') = CLOSED).
Proof.
  destruct m as [b h]. unfold effectiveConfig. cbn [this configs].
  intros Hc Hs Hfc Hpos. split.
  - intros Hlen. apply (recordFailures_reaching nows b h c Hc Hs); lia.
  - intros Hzero Hlen.
    destruct (recordFailures_below nows b h c Hc Hs)
      as (b' & Hrun & Hs' & _); [lia|].
    eexists _, _. split; [exact Hrun | exact Hs'].
Qed.

Lemma threshold_failures_open_witness :
  (exists m' evs,
     recordFailures [50; 60; 70; 80; 90] forgiven = Some (tt, m', evs) /\
     state (this m') = OPEN) /\
  (exists m' evs,
     recordFailures [10; 20] configured = Some (tt, m', evs) /\
     state (this m') = OPEN) /\
  (exists m' evs,
     recordFailures [10] configured = Some (tt, m', evs) /\
     state (this m') = CLOSED).
Proof.
  split; [|split].
  - apply (threshold_failures_open forgiven DEFAULT_CIRCUIT_BREAKER_CONFIG
             [50; 60; 70; 80; 90]);
      [reflexivity | reflexivity | simpl; lia | simpl; lia | reflexivity].
  - apply (threshold_failures_open configured (Config.mk 2 1000 1) [10; 20]);
      [reflexivity | reflexivity | simpl; lia | simpl; lia | reflexivity].
  - apply (threshold_failures_open configured (Config.mk 2 1000 1) [10]);
      [reflexivity | reflexivity | simpl; lia | simpl; lia | reflexivity | reflexivity].
Defined.

(** *** Probes while HalfOpen *)

(** A query on a HalfOpen breaker compares the counter with the limit and
    leaves the counter as it is: while the counter is below the limit, any
    number of queries is permitted. *)
Lemma queries_HALF_OPEN_permitted (nows : list Z) (b : CircuitBreaker)
    (h : list CircuitBreakerConfig) (c : CircuitBreakerConfig) :
  h !! config b = Some c ->
  state b = HALF_OPEN ->
  halfOpenAttempts b < Config.halfOpenAttempts c ->
  queries nows (mkMachine b h) =
  Some (repeat true (length nows), mkMachine b h, []).
Proof.
  intros Hc Hs Hlt. induction nows as [|now nows IH]; [reflexivity|].
  cbn [queries length repeat]. unfold mbind, mret, M_bind, M_ret.
  rewrite (canExecute_HALF_OPEN b h c Hc now Hs), IH.
  destruct (Z.ltb_spec (halfOpenAttempts b) (Config.halfOpenAttempts c));
    [reflexivity | lia].
Qed.

(** With a limit of two or more, every query from the one that leaves Open
    onwards is permitted, however many there are. *)
Lemma queries_after_recovery_unbounded (now : Z) (nows : list Z)
    (b : CircuitBreaker) (h : list CircuitBreakerConfig) (c : CircuitBreakerConfig) :
  h !! config b = Some c ->
  state b = OPEN ->
  Config.recoveryTimeout c <= now - lastFailureTime b ->
  2 <= Config.halfOpenAttempts c ->
  queries (now :: nows) (mkMachine b h) =
  Some (repeat true (S (length nows)),
        mkMachine (set_halfOpenAttempts 1 (set_state HALF_OPEN b)) h,
        [HalfOpened (agentName b) 0]).
Proof.
  intros Hc Hs Ht Hn. cbn [queries repeat]. unfold mbind, mret, M_bind, M_ret.
  rewrite (canExecute_OPEN_late b h c Hc now Hs Ht).
  rewrite (queries_HALF_OPEN_permitted nows _ h c); [reflexivity | exact Hc | reflexivity |].
  cbn. lia.
Qed.

(** With a limit of one, the query that leaves Open is the only one
    permitted. *)
Lemma queries_HALF_OPEN_denied (nows : list Z) (b : CircuitBreaker)
    (h : list CircuitBreakerConfig) (c : CircuitBreakerConfig) :
  h !! config b = Some c ->
  state b = HALF_OPEN ->
  Config.halfOpenAttempts c <= halfOpenAttempts b ->
  queries nows (mkMachine b h) =
  Some (repeat false (length nows), mkMachine b h, []).
Proof.
  intros Hc Hs Hle. induction nows as [|now nows IH]; [reflexivity|].
  cbn [queries length repeat]. unfold mbind, mret, M_bind, M_ret.
  rewrite (canExecute_HALF_OPEN b h c Hc now Hs), IH.
  destruct (Z.ltb_spec (halfOpenAttempts b) (Config.halfOpenAttempts c));
    [lia | reflexivity].
Qed.

(** C1, on the code: with [halfOpenAttempts = 3], five queries after the
    recovery timeout are all permitted, and the counter stays at 1. *)
Theorem five_probes_permitted_with_limit_three :
  Config.halfOpenAttempts DEFAULT_CIRCUIT_BREAKER_CONFIG = 3 /\
  queries [60000; 60001; 60002; 60003; 60004] tripped =
  Some ([true; true; true; true; true], probing, [HalfOpened "svc" 0]) /\
  halfOpenAttempts (this probing) = 1.
Proof. repeat split. Qed.

(** *** Notifications and state changes *)

(** C2 as stated fails: [reset] on a breaker that is already Closed leaves
    the state value Closed and still emits "reset". *)
Lemma reset_notifies_without_state_change :
  exec Reset fresh = Some (tt, fresh, [WasReset "svc"]) /\
  ~ (forall (o : Op) (m m' : Machine) (evs : list Event),
       exec o m = Some (tt, m', evs) ->
       state (this m') = state (this m) ->
       evs = []).
Proof.
  assert (Hrun : exec Reset fresh = Some (tt, fresh, [WasReset "svc"]))
    by reflexivity.
  split; [exact Hrun|].
  intros Hclaim. specialize (Hclaim Reset fresh fresh _ Hrun eq_refl).
  discriminate Hclaim.
Qed.

(** C2, amended.  An operation other than [reset] that leaves the state
    value as it was emits nothing, so "opened", "closed" and "half-open" are
    emitted only on a change of state; [reset] emits exactly "reset", whatever
    the state was. *)
Theorem notifications_only_on_state_change
    (o : Op) (m m' : Machine) (c : CircuitBreakerConfig) (evs : list Event) :
  effectiveConfig m = Some c ->
  exec o m = Some (tt, m', evs) ->
  (o <> Reset -> state (this m') = state (this m) -> evs = []) /\
  (o = Reset -> evs = [WasReset (agentName (this m))]).
Proof.
  destruct m as [b h]. unfold effectiveConfig. cbn [this configs].
  intros Hc Hex.
  exec_inv Hex b c; cbn [this state set_state set_halfOpenAttempts
    set_failureCount set_successCount set_lastFailureTime set_config
    new_CircuitBreaker];
    (split; [intros Hne Hsame | intros Ho]);
    try reflexivity; try discriminate; try congruence.
Qed.

Lemma notifications_only_on_state_change_witness :
  (exec (CanExecute 59999) tripped = Some (tt, tripped, []) /\
   ((CanExecute 59999 <> Reset ->
     state (this tripped) = state (this tripped) -> ([] : list Event) = []) /\
    (CanExecute 59999 = Reset ->
     [] = [WasReset (agentName (this tripped))]))) /\
  (exec Reset tripped = Some (tt, fresh, [WasReset "svc"]) /\
   ((Reset <> Reset ->
     state (this fresh) = state (this tripped) -> [WasReset "svc"] = []) /\
    (Reset = Reset ->
     [WasReset "svc"] = [WasReset (agentName (this tripped))]))).
Proof.
  split; (split; [reflexivity|]).
  - apply (notifications_only_on_state_change (CanExecute 59999) tripped tripped
             DEFAULT_CIRCUIT_BREAKER_CONFIG []); reflexivity.
  - apply (notifications_only_on_state_change Reset tripped fresh
             DEFAULT_CIRCUIT_BREAKER_CONFIG [WasReset "svc"]); reflexivity.
Defined.

(** C6 as stated fails: the query that takes an Open breaker to HalfOpen
    leaves [halfOpenAttempts] at 1. *)
Lemma entering_half_open_counts_one :
  exec (CanExecute 60000) tripped =
    Some (tt, probing, [HalfOpened "svc" 0]) /\
  ~ (forall (o : Op) (m m' : Machine) (evs : list Event),
       exec o m = Some (tt, m', evs) ->
       state (this m) <> state (this m') ->
       state (this m') = OPEN \/ state (this m') = HALF_OPEN ->
       halfOpenAttempts (this m') = 0).
Proof.
  split; [reflexivity|].
  intros Hclaim.
  specialize (Hclaim (CanExecute 60000) tripped _ _ eq_refl).
  cbn in Hclaim. specialize (Hclaim ltac:(discriminate) (or_intror eq_refl)).
  discriminate Hclaim.
Qed.

(** C6, amended.  Right after an operation that makes the breaker enter
    Open, [halfOpenAttempts] is 0; right after one that makes it enter
    HalfOpen, [halfOpenAttempts] is 1. *)
Theorem attempts_on_entering
    (o : Op) (m m' : Machine) (c : CircuitBreakerConfig) (evs : list Event) :
  effectiveConfig m = Some c ->
  exec o m = Some (tt, m', evs) ->
  state (this m) <> state (this m') ->
  (state (this m') = OPEN -> halfOpenAttempts (this m') = 0) /\
  (state (this m') = HALF_OPEN -> halfOpenAttempts (this m') = 1).
Proof.
  destruct m as [b h]. unfold effectiveConfig. cbn [this configs].
  intros Hc Hex.
  exec_inv Hex b c; cbn [this state halfOpenAttempts set_state
    set_halfOpenAttempts set_failureCount set_successCount
    set_lastFailureTime set_config new_CircuitBreaker];
    intros Hne; (split; intros Hst);
    try reflexivity; try discriminate; try congruence.
Qed.

Lemma attempts_on_entering_witness :
  (exec (RecordFailure 10) strained =
     Some (tt, tripped_at 10, [Opened "svc" 5 5]) /\
   state (this strained) <> state (this (tripped_at 10)) /\
   (state (this (tripped_at 10)) = OPEN ->
    halfOpenAttempts (this (tripped_at 10)) = 0)) /\
  (exec (CanExecute 60000) tripped =
     Some (tt, probing, [HalfOpened "svc" 0]) /\
   state (this tripped) <> state (this probing) /\
   (state (this probing) = HALF_OPEN -> halfOpenAttempts (this probing) = 1)).
Proof.
  split; (split; [reflexivity|]); (split; [discriminate|]).
  - apply (attempts_on_entering (RecordFailure 10) strained (tripped_at 10)
             DEFAULT_CIRCUIT_BREAKER_CONFIG [Opened "svc" 5 5]);
      [reflexivity | reflexivity | discriminate].
  - apply (attempts_on_entering (CanExecute 60000) tripped probing
             DEFAULT_CIRCUIT_BREAKER_CONFIG [HalfOpened "svc" 0]);
      [reflexivity | reflexivity | discriminate].
Defined.

(** C9. Whatever operation emits a "half-open" notification, the
    notification carries [attemptNumber] 0, the operation took the breaker
    from Open to HalfOpen, and [halfOpenAttempts] is 1 afterwards. *)
Theorem half_open_notification_says_zero
    (o : Op) (m m' : Machine) (c : CircuitBreakerConfig) (evs : list Event)
    (name : string) (n : Z) :
  effectiveConfig m = Some c ->
  exec o m = Some (tt, m', evs) ->
  In (HalfOpened name n) evs ->
  n = 0 /\
  state (this m) = OPEN /\
  state (this m') = HALF_OPEN /\
  halfOpenAttempts (this m') = 1.
Proof.
  destruct m as [b h]. unfold effectiveConfig. cbn [this configs].
  intros Hc Hex.
  exec_inv Hex b c; cbn [In]; intros Hin;
    repeat match goal with H : _ \/ _ |- _ => destruct H end;
    try contradiction; try discriminate;
    match goal with H : HalfOpened _ _ = HalfOpened _ _ |- _ =>
      injection H as _ <- end;
    repeat split; assumption.
Qed.

Lemma half_open_notification_says_zero_witness :
  exec (CanExecute 60000) tripped = Some (tt, probing, [HalfOpened "svc" 0]) /\
  In (HalfOpened "svc" 0) [HalfOpened "svc" 0] /\
  (0 = 0 /\
   state (this tripped) = OPEN /\
   state (this probing) = HALF_OPEN /\
   halfOpenAttempts (this probing) = 1).
Proof.
  split; [reflexivity|]. split; [left; reflexivity|].
  apply (half_open_notification_says_zero (CanExecute 60000) tripped probing
           DEFAULT_CIRCUIT_BREAKER_CONFIG [HalfOpened "svc" 0] "svc" 0);
    [reflexivity | reflexivity | left; reflexivity].
Defined.

(** *** The registry *)

Lemma getBreaker_known (name : string) (cfg : option ref)
    (mgr : CircuitBreakerManager) (w : World) (l : ref) :
  breakers mgr !! name = Some l ->
  getBreaker name cfg mgr w = (l, mgr, w).
Proof. intros Hl. unfold getBreaker. now rewrite Hl. Qed.

(** After [getBreaker] the name is registered under the returned
    reference. *)
Lemma getBreaker_registers (name : string) (cfg : option ref)
    (mgr : CircuitBreakerManager) (w : World) :
  breakers (getBreaker name cfg mgr w).1.2 !! name =
  Some (getBreaker name cfg mgr w).1.1.
Proof.
  unfold getBreaker. destruct (breakers mgr !! name) as [l|] eqn:Hl; cbn.
  - exact Hl.
  - apply lookup_insert_eq.
Qed.

(** C8. A second [getBreaker] with the same name returns the reference the
    first one returned, whatever configuration it is given, and changes neither
    the registry nor any instance or configuration record. *)
Theorem getBreaker_idempotent (name : string) (cfg1 cfg2 : option ref)
    (mgr : CircuitBreakerManager) (w : World) :
  let '(l, mgr', w') := getBreaker name cfg1 mgr w in
  getBreaker name cfg2 mgr' w' = (l, mgr', w').
Proof.
  pose proof (getBreaker_registers name cfg1 mgr w) as Hreg.
  destruct (getBreaker name cfg1 mgr w) as [[l mgr'] w'].
  cbn in Hreg. now apply getBreaker_known.
Qed.

(** The instance made by the first call keeps the configuration reference
    of the first call. *)
Example getBreaker_twice :
  let w0 := mkWorld [DEFAULT_CIRCUIT_BREAKER_CONFIG; Config.mk 2 1000 1;
                     Config.mk 9 9 9] [] in
  let '(l1, mgr1, w1) := getBreaker "svc" (Some 1%nat) (new_CircuitBreakerManager 0) w0 in
  let '(l2, mgr2, w2) := getBreaker "svc" (Some 2%nat) mgr1 w1 in
  l1 = l2 /\ (config <$> objHeap w2 !! l2) = Some 1%nat.
Proof. vm_compute. split; reflexivity. Qed.

(** *** Who can change the configuration *)

(** An assignment to another record leaves the one the breaker reads. *)
Lemma assignField_elsewhere (l : ref) (f : Config.field) (v : Z) (m : Machine) :
  l <> config (this m) ->
  exists m',
    assignField l f v m = Some (tt, m', []) /\
    this m' = this m /\
    effectiveConfig m' = effectiveConfig m.
Proof.
  intros Hne. eexists. split; [reflexivity|]. split; [reflexivity|].
  unfold effectiveConfig. cbn [this configs].
  now apply list_lookup_alter_ne.
Qed.

(** C10 as stated fails: the constructor keeps the reference it is given, so
    an assignment to that record by the code that made the breaker changes the
    configuration the breaker reads, and no [setConfig] is involved. *)
Lemma constructor_argument_stays_shared :
  (effectiveConfig configured = Some (Config.mk 2 1000 1) /\
   exists m',
     act (Assign 1 Config.FailureThreshold 1) configured = Some (tt, m', []) /\
     this m' = this configured /\
     effectiveConfig m' = Some (Config.mk 1 1000 1)) /\
  ~ (forall (a : Action) (m m' : Machine) (evs : list Event),
       act a m = Some (tt, m', evs) ->
       (forall p, a <> Call (SetConfig p)) ->
       effectiveConfig m' = effectiveConfig m).
Proof.
  split.
  - split; [reflexivity|]. eexists. repeat split.
  - intros Hclaim.
    specialize (Hclaim (Assign 1 Config.FailureThreshold 1) configured _ _ eq_refl).
    cbv in Hclaim. specialize (Hclaim ltac:(discriminate)). discriminate Hclaim.
Qed.

(** C10, amended.  [getConfig] returns a new record, different from the one
    the breaker reads and equal to it field by field, and changes nothing
    else; an assignment to the returned record changes neither the
    configuration the breaker reads nor its state and counters.  The
    configuration the breaker reads changes only by [setConfig] or by an
    assignment to the very record the breaker refers to. *)
Theorem getConfig_copies_and_config_is_framed (m : Machine) (c : CircuitBreakerConfig) :
  effectiveConfig m = Some c ->
  (exists l m1,
     getConfig m = Some (l, m1, []) /\
     l <> config (this m) /\
     configs m !! l = None /\
     configs m1 !! l = Some c /\
     this m1 = this m /\
     effectiveConfig m1 = Some c /\
     forall f v, exists m2,
       act (Assign l f v) m1 = Some (tt, m2, []) /\
       this m2 = this m /\
       effectiveConfig m2 = Some c) /\
  (forall (a : Action) (m' : Machine) (evs : list Event),
     act a m = Some (tt, m', evs) ->
     (forall p, a <> Call (SetConfig p)) ->
     (forall f v, a <> Assign (config (this m)) f v) ->
     effectiveConfig m' = Some c).
Proof.
  destruct m as [b h]. unfold effectiveConfig. cbn [this configs].
  intros Hc.
  assert (Hlt : (config b < length h)%nat) by (eapply lookup_lt_Some; exact Hc).
  split.
  - exists (length h), (mkMachine b (h ++ [c])).
    split; [now apply getConfig_eq|].
    split; [lia|].
    split; [now apply lookup_ge_None|].
    cbn [this configs].
    split; [now rewrite lookup_app_r, Nat.sub_diag by lia|].
    split; [reflexivity|].
    split; [now rewrite lookup_app_l by lia|].
    intros f v.
    destruct (assignField_elsewhere (length h) f v (mkMachine b (h ++ [c])))
      as (m2 & Hrun & Hthis & Heff); [cbn; lia|].
    exists m2. split; [exact Hrun|]. split; [exact Hthis|].
    unfold effectiveConfig in Heff. rewrite Heff. cbn [this configs].
    now rewrite lookup_app_l by lia.
  - intros a m' evs Hact Hset Hassign.
    destruct a as [o | l f v]; cbn [act] in Hact.
    + exec_inv Hact b c; cbn [this configs config set_state
        set_halfOpenAttempts set_failureCount set_successCount
        set_lastFailureTime new_CircuitBreaker];
        try exact Hc;
        try (now rewrite lookup_app_l by lia);
        exfalso; eapply Hset; reflexivity.
    + destruct (assignField_elsewhere l f v (mkMachine b h))
        as (m2 & Hrun & _ & Heff).
      { intros ->. now apply (Hassign f v). }
      rewrite Hrun in Hact. injection Hact as <- _.
      unfold effectiveConfig in Heff. now rewrite Heff.
Qed.

Lemma getConfig_copies_and_config_is_framed_witness :
  effectiveConfig configured = Some (Config.mk 2 1000 1) /\
  exists l m1,
    getConfig configured = Some (l, m1, []) /\
    l <> config (this configured) /\
    forall f v, exists m2,
      act (Assign l f v) m1 = Some (tt, m2, []) /\
      this m2 = this configured /\
      effectiveConfig m2 = Some (Config.mk 2 1000 1).
Proof.
  split; [reflexivity|].
  destruct (getConfig_copies_and_config_is_framed configured (Config.mk 2 1000 1) eq_refl)
    as [(l & m1 & Hget & Hne & _ & _ & _ & _ & Hframe) _].
  exists l, m1. split; [exact Hget|]. split; [exact Hne | exact Hframe].
Defined.

(** *** The scenario of the specification, through the registry

    [{ failureThreshold: 2, recoveryTimeout: 1000, halfOpenAttempts: 1 }]:
    two failures open the breaker, a query at once is denied, a query 1000ms
    later is permitted and leaves it HalfOpen with one attempt counted, and a
    failure then opens it again with three failures counted. *)
Example registry_scenario :
  let w0 := mkWorld [DEFAULT_CIRCUIT_BREAKER_CONFIG; Config.mk 2 1000 1] [] in
  let '(l, _, w1) := getBreaker "svc" (Some 1%nat) (new_CircuitBreakerManager 0) w0 in
  exists w2 w3 w4,
    invoke l (recordFailures [5000; 5000]) w1 =
      Some (tt, w2, [Opened "svc" 2 2]) /\
    invoke l (canExecute 5000) w2 = Some (false, w2, []) /\
    invoke l (canExecute 6000) w2 = Some (true, w3, [HalfOpened "svc" 0]) /\
    objHeap w3 !! l = Some (mkBreaker HALF_OPEN 2 0 5000 1 1 "svc") /\
    invoke l (recordFailure 6001) w3 = Some (tt, w4, [Opened "svc" 3 2]) /\
    objHeap w4 !! l = Some (mkBreaker OPEN 3 0 6001 0 1 "svc").
Proof. vm_compute. eexists _, _, _. repeat split. Qed.

(** * Further properties of the code *)

(** ** The state machine *)

Ltac fields :=
  cbn [this configs state failureCount successCount lastFailureTime
       halfOpenAttempts config agentName set_state set_failureCount
       set_successCount set_lastFailureTime set_halfOpenAttempts set_config
       new_CircuitBreaker] in *.

(** X1. An operation changes the state exactly along the moves of [edge]:
    Closed to Open by the failure that reaches the threshold, HalfOpen to Open
    by any failure, Open to HalfOpen by a query or a status snapshot once the
    recovery timeout has elapsed, HalfOpen to Closed by a success, and to
    Closed by [reset].  In particular a success never closes an Open breaker
    and nothing but [reset] and an elapsed timeout leaves Open. *)
Theorem state_changes_along_edges
    (o : Op) (m m' : Machine) (c : CircuitBreakerConfig) (evs : list Event) :
  effectiveConfig m = Some c ->
  exec o m = Some (tt, m', evs) ->
  (state (this m') <> state (this m) -> edge c (this m) o (state (this m'))) /\
  (forall s, edge c (this m) o s ->
             state (this m') = s /\ s <> state (this m)).
Proof.
  destruct m as [b h]. unfold effectiveConfig. cbn [this configs].
  intros Hc Hex.
  exec_inv Hex b c; fields;
    (split;
     [ intros Hne; try congruence; constructor; first [assumption | lia | congruence]
     | intros s Hedge; inversion Hedge; subst; split; congruence || lia ]).
Qed.

Lemma state_changes_along_edges_witness :
  exec (CanExecute 60000) tripped = Some (tt, probing, [HalfOpened "svc" 0]) /\
  edge DEFAULT_CIRCUIT_BREAKER_CONFIG (this tripped) (CanExecute 60000)
       (state (this probing)).
Proof.
  split; [reflexivity|].
  apply (state_changes_along_edges (CanExecute 60000) tripped probing
           DEFAULT_CIRCUIT_BREAKER_CONFIG [HalfOpened "svc" 0]);
    [reflexivity | reflexivity | discriminate].
Defined.

(** X2. An operation other than [reset] that changes the state emits
    exactly one notification, the one that announces the new state: "opened"
    with the failure count after the failure and the configured threshold,
    "closed" with the success count after the success, "half-open" with 0. *)
Theorem state_change_is_announced
    (o : Op) (m m' : Machine) (c : CircuitBreakerConfig) (evs : list Event) :
  effectiveConfig m = Some c ->
  exec o m = Some (tt, m', evs) ->
  o <> Reset ->
  state (this m') <> state (this m) ->
  evs = [announcement c (this m')].
Proof.
  destruct m as [b h]. unfold effectiveConfig. cbn [this configs].
  intros Hc Hex.
  exec_inv Hex b c; unfold announcement; fields;
    intros Ho Hne; try congruence; reflexivity.
Qed.

Lemma state_change_is_announced_witness :
  exec (RecordFailure 10) strained = Some (tt, tripped_at 10, [Opened "svc" 5 5]) /\
  [Opened "svc" 5 5] =
  [announcement DEFAULT_CIRCUIT_BREAKER_CONFIG (this (tripped_at 10))].
Proof.
  split; [reflexivity|].
  apply (state_change_is_announced (RecordFailure 10) strained (tripped_at 10)
           DEFAULT_CIRCUIT_BREAKER_CONFIG [Opened "svc" 5 5]);
    [reflexivity | reflexivity | discriminate | discriminate].
Defined.

(** ** Invariants of a breaker in use *)

Lemma execs_app (os1 os2 : list Op) (m : Machine) :
  execs (os1 ++ os2) m =
  match execs os1 m with
  | Some (_, m1, e1) =>
      match execs os2 m1 with
      | Some (_, m2, e2) => Some (tt, m2, e1 ++ e2)
      | None => None
      end
  | None => None
  end.
Proof.
  revert m. induction os1 as [|o os1 IH]; intros m; cbn [execs app].
  - cbn. now destruct (execs os2 m) as [[[[] m2] e2]|].
  - unfold mbind, M_bind.
    destruct (exec o m) as [[[[] m1] e1]|]; [|reflexivity].
    rewrite IH.
    destruct (execs os1 m1) as [[[[] m2] e2]|]; [|reflexivity].
    destruct (execs os2 m2) as [[[[] m3] e3]|]; [|reflexivity].
    now rewrite app_assoc.
Qed.

Lemma execs_cons (o : Op) (os : list Op) (m : Machine) :
  execs (o :: os) m =
  match exec o m with
  | Some (_, m1, e1) =>
      match execs os m1 with
      | Some (_, m2, e2) => Some (tt, m2, e1 ++ e2)
      | None => None
      end
  | None => None
  end.
Proof.
  cbn [execs]. unfold mbind, M_bind.
  destruct (exec o m) as [[[[] m1] e1]|]; [|reflexivity].
  now destruct (execs os m1) as [[[[] m2] e2]|].
Qed.

(** One call keeps the counters consistent, the configuration reference
    valid and the name. *)
Lemma exec_consistent (o : Op) (m m' : Machine) (evs : list Event) :
  is_Some (effectiveConfig m) ->
  consistent (this m) ->
  exec o m = Some (tt, m', evs) ->
  is_Some (effectiveConfig m') /\
  consistent (this m') /\
  agentName (this m') = agentName (this m).
Proof.
  destruct m as [b h]. unfold effectiveConfig. cbn [this configs].
  intros [c Hc] (Hf & Hs & Hh) Hex.
  assert (Hlt : (config b < length h)%nat) by (eapply lookup_lt_Some; exact Hc).
  exec_inv Hex b c; unfold consistent; fields;
    repeat case_decide; try congruence.
  all: split; [|split; [repeat split; try first [assumption | lia | congruence] | try reflexivity]].
  all: try (exists c; exact Hc).
  all: try (exists c; rewrite lookup_app_l by lia; exact Hc).
  all: try (eexists; rewrite lookup_app_r, Nat.sub_diag by lia; reflexivity).
Qed.

(** No run of calls fails on a breaker whose configuration reference names
    a record, and consistency carries through the run. *)
Lemma execs_consistent (os : list Op) :
  forall m : Machine,
    is_Some (effectiveConfig m) ->
    consistent (this m) ->
    exists m' evs,
      execs os m = Some (tt, m', evs) /\
      is_Some (effectiveConfig m') /\
      consistent (this m') /\
      agentName (this m') = agentName (this m).
Proof.
  induction os as [|o os IH]; intros m Hc Hcons.
  - exists m, []. split; [reflexivity|]. split; [assumption|]. split; [assumption | reflexivity].
  - destruct m as [b h]. destruct Hc as [c Hc].
    destruct (exec_total o b h c Hc) as [[[[] m1] e1] Hex].
    destruct (exec_consistent o (mkMachine b h) m1 e1) as (Hc1 & Hcons1 & Hn1);
      [exists c; exact Hc | exact Hcons | exact Hex |].
    destruct (IH m1 Hc1 Hcons1) as (m' & e2 & Hrun & Hc' & Hcons' & Hn').
    exists m', (e1 ++ e2). rewrite execs_cons, Hex, Hrun.
    split; [reflexivity|]. split; [assumption|]. split; [assumption | congruence].
Qed.

(** X3. Whatever calls are made on a breaker after its construction, none
    fails, and neither [failureCount] nor [successCount] is ever negative. *)
Theorem counters_never_negative
    (name : string) (cfg : ref) (h : list CircuitBreakerConfig) (os : list Op) :
  is_Some (h !! cfg) ->
  exists m' evs,
    execs os (mkMachine (new_CircuitBreaker name cfg) h) = Some (tt, m', evs) /\
    0 <= failureCount (this m') /\
    0 <= successCount (this m').
Proof.
  intros Hc.
  destruct (execs_consistent os (mkMachine (new_CircuitBreaker name cfg) h))
    as (m' & evs & Hrun & _ & (Hf & Hs & _) & _).
  - exact Hc.
  - repeat split; reflexivity || lia.
  - exists m', evs. repeat split; assumption.
Qed.

Lemma counters_never_negative_witness :
  exists m' evs,
    execs [RecordSuccess; RecordFailure 5; Reset; RecordSuccess] fresh =
      Some (tt, m', evs) /\
    0 <= failureCount (this m') /\
    0 <= successCount (this m').
Proof.
  apply (counters_never_negative "svc" 0 [DEFAULT_CIRCUIT_BREAKER_CONFIG]
           [RecordSuccess; RecordFailure 5; Reset; RecordSuccess]).
  eexists. reflexivity.
Defined.

(** X4. Whatever calls are made on a breaker after its construction,
    [halfOpenAttempts] is 1 while the breaker is HalfOpen and 0 otherwise: the
    counter never counts more than the query that left Open. *)
Theorem attempts_follow_the_state
    (name : string) (cfg : ref) (h : list CircuitBreakerConfig) (os : list Op)
    (m' : Machine) (evs : list Event) :
  is_Some (h !! cfg) ->
  execs os (mkMachine (new_CircuitBreaker name cfg) h) = Some (tt, m', evs) ->
  halfOpenAttempts (this m') = if decide (state (this m') = HALF_OPEN) then 1 else 0.
Proof.
  intros Hc Hrun.
  destruct (execs_consistent os (mkMachine (new_CircuitBreaker name cfg) h))
    as (m1 & e1 & Hrun1 & _ & (_ & _ & Hh) & _).
  - exact Hc.
  - repeat split; reflexivity || lia.
  - rewrite Hrun in Hrun1. injection Hrun1 as <- _. exact Hh.
Qed.

Lemma attempts_follow_the_state_witness :
  execs (replicate 5 (RecordFailure 0) ++ [CanExecute 60000; GetStatus 60001]) fresh =
    Some (tt, probing, [Opened "svc" 5 5; HalfOpened "svc" 0]) /\
  halfOpenAttempts (this probing) =
    if decide (state (this probing) = HALF_OPEN) then 1 else 0.
Proof.
  split; [reflexivity|].
  apply (attempts_follow_the_state "svc" 0 [DEFAULT_CIRCUIT_BREAKER_CONFIG]
           (replicate 5 (RecordFailure 0) ++ [CanExecute 60000; GetStatus 60001])
           probing [Opened "svc" 5 5; HalfOpened "svc" 0]);
    [eexists; reflexivity | reflexivity].
Defined.

(** ** What the counters record *)

Lemma exec_accounting (o : Op) (m m' : Machine) (evs : list Event) :
  is_Some (effectiveConfig m) ->
  exec o m = Some (tt, m', evs) ->
  is_Some (effectiveConfig m') /\
  (isReset o = false ->
   successCount (this m') =
   successCount (this m) + (if isRecordSuccess o then 1 else 0)) /\
  (isReset o = false -> isRecordFailure o = false ->
   lastFailureTime (this m') = lastFailureTime (this m)) /\
  (forall now, o = RecordFailure now ->
   lastFailureTime (this m') = now /\
   failureCount (this m') = failureCount (this m) + 1).
Proof.
  destruct m as [b h]. unfold effectiveConfig. cbn [this configs].
  intros [c Hc] Hex.
  assert (Hlt : (config b < length h)%nat) by (eapply lookup_lt_Some; exact Hc).
  exec_inv Hex b c; fields; cbn [isReset isRecordSuccess isRecordFailure].
  all: split; [|repeat split; intros; try discriminate; try lia;
                 match goal with
                 | Hn : RecordFailure _ = RecordFailure _ |- _ =>
                     injection Hn as ->; reflexivity
                 end].
  all: try (exists c; exact Hc).
  all: try (exists c; rewrite lookup_app_l by lia; exact Hc).
  all: eexists; rewrite lookup_app_r, Nat.sub_diag by lia; reflexivity.
Qed.

(** X5. Without a [reset], [successCount] grows by exactly the number of
    successes reported: failures, trips and recoveries in between do not
    reset it. *)
Theorem successCount_counts_every_success (os : list Op) :
  forall (m m' : Machine) (evs : list Event),
    is_Some (effectiveConfig m) ->
    ~ In Reset os ->
    execs os m = Some (tt, m', evs) ->
    successCount (this m') =
    successCount (this m) + Z.of_nat (length (List.filter isRecordSuccess os)).
Proof.
  induction os as [|o os IH]; intros m m' evs Hc Hnr Hrun.
  - cbn in Hrun. injection Hrun as <- _. cbn. lia.
  - rewrite execs_cons in Hrun.
    destruct (exec o m) as [[[[] m1] e1]|] eqn:Hex; [|discriminate].
    destruct (execs os m1) as [[[[] m2] e2]|] eqn:Hrest; [|discriminate].
    injection Hrun as <- _.
    destruct (exec_accounting o m m1 e1 Hc Hex) as (Hc1 & Hsc & _).
    rewrite (IH m1 m2 e2 Hc1) by (try exact Hrest; intros Hin; apply Hnr; now right).
    rewrite Hsc.
    + cbn [List.filter]. destruct (isRecordSuccess o); cbn [length]; lia.
    + destruct o; try reflexivity. exfalso. apply Hnr. now left.
Qed.

Lemma successCount_counts_every_success_witness :
  execs [RecordSuccess; RecordFailure 1; RecordSuccess; RecordFailure 2] fresh =
    Some (tt, mkMachine (mkBreaker CLOSED 1 2 2 0 0 "svc")
                        [DEFAULT_CIRCUIT_BREAKER_CONFIG], []) /\
  successCount (mkBreaker CLOSED 1 2 2 0 0 "svc") = successCount (this fresh) + 2.
Proof.
  split; [reflexivity|].
  apply (successCount_counts_every_success
           [RecordSuccess; RecordFailure 1; RecordSuccess; RecordFailure 2]
           fresh
           (mkMachine (mkBreaker CLOSED 1 2 2 0 0 "svc")
                      [DEFAULT_CIRCUIT_BREAKER_CONFIG]) []);
    [eexists; reflexivity | | reflexivity].
  cbn. intros Hin.
  repeat match goal with H : _ \/ _ |- _ => destruct H end;
    discriminate || contradiction.
Defined.

(** X6. [lastFailureTime] is the time of the latest reported failure: the
    calls made after it, short of another failure or a [reset], leave it. *)
Theorem lastFailureTime_is_the_latest_failure (now : Z) (os : list Op) :
  forall (m m' : Machine) (evs : list Event),
    is_Some (effectiveConfig m) ->
    ~ In Reset os ->
    (forall t, ~ In (RecordFailure t) os) ->
    execs (RecordFailure now :: os) m = Some (tt, m', evs) ->
    lastFailureTime (this m') = now.
Proof.
  intros m m' evs Hc Hnr Hnf Hrun.
  rewrite execs_cons in Hrun.
  destruct (exec (RecordFailure now) m) as [[[[] m1] e1]|] eqn:Hex; [|discriminate].
  destruct (execs os m1) as [[[[] m2] e2]|] eqn:Hrest; [|discriminate].
  injection Hrun as <- _.
  destruct (exec_accounting _ m m1 e1 Hc Hex) as (Hc1 & _ & _ & Hlft).
  destruct (Hlft now eq_refl) as [<- _]. clear Hlft Hex Hc.
  revert m1 m2 e2 Hc1 Hrest.
  induction os as [|o os IH]; intros m1 m2 e2 Hc1 Hrest.
  - cbn in Hrest. now injection Hrest as <- _.
  - rewrite execs_cons in Hrest.
    destruct (exec o m1) as [[[[] m3] e3]|] eqn:Hex; [|discriminate].
    destruct (execs os m3) as [[[[] m4] e4]|] eqn:Hrest'; [|discriminate].
    injection Hrest as <- _.
    destruct (exec_accounting o m1 m3 e3 Hc1 Hex) as (Hc3 & _ & Hkeep & _).
    rewrite (IH ltac:(intros Hin; apply Hnr; now right)
                ltac:(intros t Hin; apply (Hnf t); now right) m3 m4 e4 Hc3 Hrest').
    apply Hkeep.
    + destruct o; try reflexivity. exfalso. apply Hnr. now left.
    + destruct o; try reflexivity. exfalso. eapply Hnf. now left.
Qed.

Lemma lastFailureTime_is_the_latest_failure_witness :
  execs [RecordFailure 42; RecordSuccess; CanExecute 50] fresh =
    Some (tt, mkMachine (mkBreaker CLOSED 0 1 42 0 0 "svc")
                        [DEFAULT_CIRCUIT_BREAKER_CONFIG], []) /\
  lastFailureTime (mkBreaker CLOSED 0 1 42 0 0 "svc") = 42.
Proof.
  split; [reflexivity|].
  apply (lastFailureTime_is_the_latest_failure 42 [RecordSuccess; CanExecute 50]
           fresh
           (mkMachine (mkBreaker CLOSED 0 1 42 0 0 "svc")
                      [DEFAULT_CIRCUIT_BREAKER_CONFIG]) []).
  - eexists; reflexivity.
  - cbn. intros Hin.
    repeat match goal with H : _ \/ _ |- _ => destruct H end;
      discriminate || contradiction.
  - cbn. intros t Hin.
    repeat match goal with H : _ \/ _ |- _ => destruct H end;
      discriminate || contradiction.
  - reflexivity.
Defined.

(** ** Probing and recovery *)

(** X7. With a probe limit of one (or less), the status snapshot taken on
    an Open breaker after the recovery timeout reports [canExecute = true] and
    uses up the probe: every query after it is denied, at whatever time, until
    an outcome is reported. *)
Theorem status_snapshot_uses_the_probe
    (m : Machine) (c : CircuitBreakerConfig) (now : Z) :
  effectiveConfig m = Some c ->
  state (this m) = OPEN ->
  Config.recoveryTimeout c <= now - lastFailureTime (this m) ->
  Config.halfOpenAttempts c <= 1 ->
  exists st m',
    getStatus now m = Some (st, m', [HalfOpened (agentName (this m)) 0]) /\
    Status.canExecute st = true /\
    Status.state st = OPEN /\
    forall later, canExecute later m' = Some (false, m', []).
Proof.
  destruct m as [b h]. unfold effectiveConfig. cbn [this configs].
  intros Hc Hs Ht Hn.
  rewrite getStatus_eq, (canExecute_OPEN_late b h c Hc now Hs Ht).
  eexists _, _. split; [reflexivity|]. split; [reflexivity|].
  split; [exact Hs|]. intros later.
  erewrite canExecute_HALF_OPEN by first [exact Hc | reflexivity]. cbn.
  destruct (Z.ltb_spec 1 (Config.halfOpenAttempts c)); [lia | reflexivity].
Qed.

Lemma status_snapshot_uses_the_probe_witness :
  exists st m',
    getStatus 1500
      (mkMachine (mkBreaker OPEN 2 0 500 0 1 "svc")
                 [DEFAULT_CIRCUIT_BREAKER_CONFIG; Config.mk 2 1000 1]) =
      Some (st, m', [HalfOpened "svc" 0]) /\
    Status.canExecute st = true /\
    Status.state st = OPEN /\
    forall later, canExecute later m' = Some (false, m', []).
Proof.
  apply (status_snapshot_uses_the_probe
           (mkMachine (mkBreaker OPEN 2 0 500 0 1 "svc")
                      [DEFAULT_CIRCUIT_BREAKER_CONFIG; Config.mk 2 1000 1])
           (Config.mk 2 1000 1) 1500);
    [reflexivity | reflexivity | simpl; lia | simpl; lia].
Defined.

(** X8. A permitted probe followed by a reported success closes the
    breaker: [failureCount] and [halfOpenAttempts] are 0 again, the success is
    counted, the time of the last failure is kept, and "half-open" then
    "closed" are emitted, in that order. *)
Theorem probe_then_success_recovers
    (m : Machine) (c : CircuitBreakerConfig) (now : Z) :
  effectiveConfig m = Some c ->
  state (this m) = OPEN ->
  Config.recoveryTimeout c <= now - lastFailureTime (this m) ->
  (canExecute now;; recordSuccess) m =
  Some (tt,
        mkMachine (mkBreaker CLOSED 0 (successCount (this m) + 1)
                             (lastFailureTime (this m)) 0
                             (config (this m)) (agentName (this m)))
                  (configs m),
        [HalfOpened (agentName (this m)) 0;
         Closed (agentName (this m)) (successCount (this m) + 1)]).
Proof.
  destruct m as [b h]. unfold effectiveConfig. cbn [this configs].
  intros Hc Hs Ht. unfold mbind, M_bind.
  rewrite (canExecute_OPEN_late b h c Hc now Hs Ht).
  now erewrite recordSuccess_HALF_OPEN by reflexivity.
Qed.

Lemma probe_then_success_recovers_witness :
  (canExecute 60000;; recordSuccess) tripped =
  Some (tt,
        mkMachine (mkBreaker CLOSED 0 1 0 0 0 "svc") [DEFAULT_CIRCUIT_BREAKER_CONFIG],
        [HalfOpened "svc" 0; Closed "svc" 1]).
Proof.
  apply (probe_then_success_recovers tripped DEFAULT_CIRCUIT_BREAKER_CONFIG 60000);
    [reflexivity | reflexivity | simpl; lia].
Defined.

(** X9. A permitted probe followed by a reported failure opens the breaker
    again and restarts the wait from the time of that failure: a query made
    less than [recoveryTimeout] after it is denied, however long ago the first
    failure was. *)
Theorem probe_then_failure_restarts_the_wait
    (m : Machine) (c : CircuitBreakerConfig) (now failed later : Z) :
  effectiveConfig m = Some c ->
  state (this m) = OPEN ->
  Config.recoveryTimeout c <= now - lastFailureTime (this m) ->
  later - failed < Config.recoveryTimeout c ->
  exists m',
    (canExecute now;; recordFailure failed) m =
      Some (tt, m',
            [HalfOpened (agentName (this m)) 0;
             Opened (agentName (this m)) (failureCount (this m) + 1)
                    (Config.failureThreshold c)]) /\
    state (this m') = OPEN /\
    halfOpenAttempts (this m') = 0 /\
    failureCount (this m') = failureCount (this m) + 1 /\
    canExecute later m' = Some (false, m', []).
Proof.
  destruct m as [b h]. unfold effectiveConfig. cbn [this configs].
  intros Hc Hs Ht Hl. unfold mbind, M_bind.
  rewrite (canExecute_OPEN_late b h c Hc now Hs Ht).
  erewrite recordFailure_HALF_OPEN by first [exact Hc | reflexivity].
  eexists. split; [reflexivity|]. repeat split.
  now apply canExecute_OPEN_early with (c := c).
Qed.

Lemma probe_then_failure_restarts_the_wait_witness :
  exists m',
    (canExecute 60000;; recordFailure 60010) tripped =
      Some (tt, m', [HalfOpened "svc" 0; Opened "svc" 6 5]) /\
    state (this m') = OPEN /\
    halfOpenAttempts (this m') = 0 /\
    failureCount (this m') = 6 /\
    canExecute 120009 m' = Some (false, m', []).
Proof.
  apply (probe_then_failure_restarts_the_wait tripped DEFAULT_CIRCUIT_BREAKER_CONFIG
           60000 60010 120009);
    [reflexivity | reflexivity | simpl; lia | simpl; lia].
Defined.

(** ** [setConfig] *)

(** The record made last is at the reference that was free. *)
Lemma lookup_allocated (h : list CircuitBreakerConfig) (c : CircuitBreakerConfig) :
  (h ++ [c]) !! length h = Some c.
Proof. now rewrite lookup_app_r, Nat.sub_diag by lia. Qed.

(** X10. [setConfig] makes a new record with the given properties over the
    current ones and points the breaker at it.  State and counters are as
    before, nothing is emitted, and no record that existed is written: whoever
    shares the old record keeps reading the old values, and an assignment to
    any record that existed no longer reaches this breaker. *)
Theorem setConfig_makes_a_private_record
    (m : Machine) (c : CircuitBreakerConfig) (p : Config.partial) :
  effectiveConfig m = Some c ->
  exists m',
    setConfig p m = Some (tt, m', []) /\
    effectiveConfig m' = Some (Config.spread c p) /\
    this m' = set_config (length (configs m)) (this m) /\
    (forall l, (l < length (configs m))%nat -> configs m' !! l = configs m !! l) /\
    (forall l f v, (l < length (configs m))%nat ->
       exists m'',
         act (Assign l f v) m' = Some (tt, m'', []) /\
         effectiveConfig m'' = Some (Config.spread c p)).
Proof.
  destruct m as [b h]. unfold effectiveConfig. cbn [this configs].
  intros Hc. rewrite (setConfig_eq b h c Hc p).
  eexists. split; [reflexivity|]. cbn [this configs config set_config].
  split; [now rewrite lookup_app_r, Nat.sub_diag by lia|].
  split; [reflexivity|].
  split; [intros l Hl; now rewrite lookup_app_l by lia|].
  intros l f v Hl. eexists. split; [reflexivity|].
  cbn [this configs config set_config].
  rewrite list_lookup_alter_ne by lia.
  now rewrite lookup_app_r, Nat.sub_diag by lia.
Qed.

Lemma setConfig_makes_a_private_record_witness :
  exists m',
    setConfig (Config.mkPartial (Some 3) None None) configured = Some (tt, m', []) /\
    effectiveConfig m' = Some (Config.mk 3 1000 1) /\
    configs m' !! 1%nat = Some (Config.mk 2 1000 1).
Proof.
  destruct (setConfig_makes_a_private_record configured (Config.mk 2 1000 1)
              (Config.mkPartial (Some 3) None None) eq_refl)
    as (m' & Hrun & Heff & _ & Hold & _).
  exists m'. split; [exact Hrun|]. split; [exact Heff|].
  rewrite (Hold 1%nat); [reflexivity | simpl; lia].
Defined.

(** X11. Two [setConfig] in a row configure the breaker as one [setConfig]
    with the properties of the second over those of the first; [setConfig]
    with no property leaves the configuration the breaker reads as it was. *)
Theorem setConfig_composes
    (m : Machine) (c : CircuitBreakerConfig) (p q : Config.partial) :
  effectiveConfig m = Some c ->
  (exists m2 m1,
     (setConfig p;; setConfig q) m = Some (tt, m2, []) /\
     setConfig (partial_over q p) m = Some (tt, m1, []) /\
     effectiveConfig m2 = effectiveConfig m1 /\
     effectiveConfig m2 = Some (Config.spread (Config.spread c p) q)) /\
  (exists m0,
     setConfig (Config.mkPartial None None None) m = Some (tt, m0, []) /\
     effectiveConfig m0 = Some c).
Proof.
  destruct m as [b h]. unfold effectiveConfig. cbn [this configs].
  intros Hc. split.
  - unfold mbind, M_bind. rewrite !(setConfig_eq b h c Hc).
    rewrite (setConfig_eq _ _ (Config.spread c p)); cbn [config set_config];
      [|now rewrite lookup_app_r, Nat.sub_diag by lia].
    eexists _, _. split; [reflexivity|]. split; [reflexivity|].
    cbn [this configs config set_config].
    rewrite !lookup_allocated.
    split; [|reflexivity].
    destruct c as [a1 a2 a3], p as [[?|] [?|] [?|]], q as [[?|] [?|] [?|]];
      reflexivity.
  - rewrite (setConfig_eq b h c Hc). eexists. split; [reflexivity|].
    cbn [this configs config set_config].
    rewrite lookup_app_r, Nat.sub_diag by lia. now destruct c.
Qed.

Lemma setConfig_composes_witness :
  exists m2,
    (setConfig (Config.mkPartial (Some 3) (Some 10) None);;
     setConfig (Config.mkPartial None (Some 20) None)) configured =
      Some (tt, m2, []) /\
    effectiveConfig m2 = Some (Config.mk 3 20 1).
Proof.
  destruct (setConfig_composes configured (Config.mk 2 1000 1)
              (Config.mkPartial (Some 3) (Some 10) None)
              (Config.mkPartial None (Some 20) None) eq_refl)
    as [(m2 & m1 & Hrun & _ & _ & Heff) _].
  exists m2. split; [exact Hrun | exact Heff].
Defined.

(** ** The registry in use *)

Lemma getBreaker_unknown (name : string) (cfg : option ref)
    (mgr : CircuitBreakerManager) (w : World) :
  breakers mgr !! name = None ->
  getBreaker name cfg mgr w =
  (length (objHeap w),
   mkManager (<[name := length (objHeap w)]> (breakers mgr)) (defaultConfig mgr),
   mkWorld (cfgHeap w)
           (objHeap w ++ [new_CircuitBreaker name (default (defaultConfig mgr) cfg)])).
Proof. intros Hn. unfold getBreaker. now rewrite Hn. Qed.

Lemma lookup_created (objs : list CircuitBreaker) (b : CircuitBreaker) :
  (objs ++ [b]) !! length objs = Some b.
Proof. now rewrite lookup_app_r, Nat.sub_diag by lia. Qed.

Lemma instance_ok_lt (w : World) (name : string) (l : ref) :
  instance_ok w name l -> (l < length (objHeap w))%nat.
Proof. intros (b & Hb & _). eapply lookup_lt_Some. exact Hb. Qed.

(** X12. [removeBreaker] on a name that is not managed answers false and
    leaves the registry as it is.  On a managed name it answers true and
    forgets the name only: the instance stays in the store untouched, and the
    next [getBreaker] with that name returns another instance, newly
    constructed. *)
Theorem removeBreaker_forgets_the_name_only
    (name : string) (cfg : option ref) (mgr : CircuitBreakerManager) (w : World) :
  registry_ok mgr w ->
  (breakers mgr !! name = None -> removeBreaker name mgr = (false, mgr)) /\
  (forall l, breakers mgr !! name = Some l ->
     exists mgr1,
       removeBreaker name mgr = (true, mgr1) /\
       breakers mgr1 !! name = None /\
       (forall other, other <> name ->
                      breakers mgr1 !! other = breakers mgr !! other) /\
       exists l2 mgr2 w2,
         getBreaker name cfg mgr1 w = (l2, mgr2, w2) /\
         l2 <> l /\
         objHeap w2 !! l2 =
           Some (new_CircuitBreaker name (default (defaultConfig mgr) cfg)) /\
         objHeap w2 !! l = objHeap w !! l).
Proof.
  intros (Hok & _ & _). split.
  - intros Hn. unfold removeBreaker. rewrite Hn.
    rewrite (delete_id (breakers mgr) name Hn).
    rewrite bool_decide_eq_false_2 by (intros [x Hx]; discriminate).
    now destruct mgr.
  - intros l Hl. eexists. split.
    + unfold removeBreaker. rewrite Hl.
      rewrite bool_decide_eq_true_2 by (now eexists). reflexivity.
    + cbn [breakers defaultConfig].
      split; [apply lookup_delete_eq|].
      split; [intros other Hne; now apply lookup_delete_ne|].
      pose proof (instance_ok_lt w name l (Hok name l Hl)) as Hlt.
      eexists _, _, _. split.
      * apply getBreaker_unknown. cbn [breakers]. apply lookup_delete_eq.
      * cbn [objHeap defaultConfig]. split; [lia|].
        split; [apply lookup_created|].
        now rewrite lookup_app_l by lia.
Qed.

Lemma managing_ok : registry_ok managing managed.
Proof.
  split; [|split]; cbn [managing managed breakers defaultConfig cfgHeap objHeap].
  - intros name l Hl. apply lookup_singleton_Some in Hl as [<- <-].
    exists (this tripped). split; [reflexivity|]. split; [reflexivity|].
    eexists; reflexivity.
  - intros n1 n2 l H1 H2.
    apply lookup_singleton_Some in H1 as [<- _].
    now apply lookup_singleton_Some in H2 as [<- _].
  - eexists; reflexivity.
Defined.

Lemma removeBreaker_forgets_the_name_only_witness :
  removeBreaker "other" managing = (false, managing) /\
  exists mgr1 l2 mgr2 w2,
    removeBreaker "svc" managing = (true, mgr1) /\
    getBreaker "svc" None mgr1 managed = (l2, mgr2, w2) /\
    l2 <> 0%nat /\
    objHeap w2 !! l2 = Some (new_CircuitBreaker "svc" 0) /\
    objHeap w2 !! 0%nat = Some (this tripped).
Proof.
  destruct (removeBreaker_forgets_the_name_only "other" None managing managed
              managing_ok) as [Hno _].
  destruct (removeBreaker_forgets_the_name_only "svc" None managing managed
              managing_ok) as [_ Hyes].
  split; [apply Hno; reflexivity|].
  destruct (Hyes 0%nat eq_refl)
    as (mgr1 & Hrm & _ & _ & l2 & mgr2 & w2 & Hget & Hne & Hnew & Hold).
  exists mgr1, l2, mgr2, w2. repeat split; assumption.
Defined.

(** X13. [setDefaultConfig] changes what later creations get and nothing
    else: a managed name still yields its instance, and an instance created
    afterwards without a configuration refers to the new default, one created
    with a configuration refers to that. *)
Theorem setDefaultConfig_is_for_later_creations
    (dflt : ref) (name : string) (cfg : option ref)
    (mgr : CircuitBreakerManager) (w : World) :
  (forall l, breakers mgr !! name = Some l ->
     getBreaker name cfg (setDefaultConfig dflt mgr) w =
     (l, setDefaultConfig dflt mgr, w)) /\
  (breakers mgr !! name = None ->
     exists l mgr' w',
       getBreaker name cfg (setDefaultConfig dflt mgr) w = (l, mgr', w') /\
       (config <$> objHeap w' !! l) = Some (default dflt cfg) /\
       forall l0 b, objHeap w !! l0 = Some b -> objHeap w' !! l0 = Some b).
Proof.
  split.
  - intros l Hl. now apply getBreaker_known.
  - intros Hn. eexists _, _, _. split; [now apply getBreaker_unknown|].
    cbn [objHeap defaultConfig setDefaultConfig]. split.
    + now rewrite lookup_created.
    + intros l0 b Hb. rewrite lookup_app_l; [exact Hb|].
      eapply lookup_lt_Some. exact Hb.
Qed.

Lemma setDefaultConfig_is_for_later_creations_witness :
  getBreaker "svc" None (setDefaultConfig 1 managing) managed =
    (0%nat, setDefaultConfig 1 managing, managed) /\
  exists l mgr' w',
    getBreaker "new" None (setDefaultConfig 1 managing) managed = (l, mgr', w') /\
    (config <$> objHeap w' !! l) = Some 1%nat.
Proof.
  destruct (setDefaultConfig_is_for_later_creations 1 "svc" None managing managed)
    as [Hold _].
  destruct (setDefaultConfig_is_for_later_creations 1 "new" None managing managed)
    as [_ Hnew].
  split; [apply Hold; reflexivity|].
  destruct (Hnew eq_refl) as (l & mgr' & w' & Hget & Hcfg & _).
  exists l, mgr', w'. split; assumption.
Defined.

(** *** What every use of a registry keeps *)

(** A call keeps the name and the validity of the configuration reference,
    and only adds records to the store. *)
Lemma exec_frame (o : Op) (m m' : Machine) (evs : list Event) :
  is_Some (effectiveConfig m) ->
  exec o m = Some (tt, m', evs) ->
  agentName (this m') = agentName (this m) /\
  is_Some (effectiveConfig m') /\
  exists ext, configs m' = configs m ++ ext.
Proof.
  destruct m as [b h]. unfold effectiveConfig. cbn [this configs].
  intros [c Hc] Hex.
  assert (Hlt : (config b < length h)%nat) by (eapply lookup_lt_Some; exact Hc).
  exec_inv Hex b c; fields.
  all: split; [reflexivity|]; split.
  all: try (exists c; exact Hc).
  all: try (exists []; now rewrite app_nil_r).
  all: try (eexists; reflexivity).
  all: try (exists c; rewrite lookup_app_l by lia; exact Hc).
  all: eexists; apply lookup_allocated.
Qed.

Lemma invoke_exec_inv (l : ref) (o : Op) (w w' : World) (evs : list Event) :
  store_ok w ->
  invoke l (exec o) w = Some (tt, w', evs) ->
  exists b b' ext,
    objHeap w !! l = Some b /\
    objHeap w' = <[l := b']> (objHeap w) /\
    cfgHeap w' = cfgHeap w ++ ext /\
    agentName b' = agentName b /\
    is_Some (cfgHeap w' !! config b').
Proof.
  intros Hstore Hinv. unfold invoke in Hinv.
  destruct (objHeap w !! l) as [b|] eqn:Hb; [|discriminate].
  destruct (exec o (mkMachine b (cfgHeap w))) as [[[[] m'] e]|] eqn:Hex;
    [|discriminate].
  injection Hinv as <- <-.
  destruct (exec_frame o (mkMachine b (cfgHeap w)) m' e (Hstore l b Hb) Hex)
    as (Hname & Hcfg & ext & Hext).
  exists b, (this m'), ext. cbn [objHeap cfgHeap] in *.
  repeat split; assumption.
Qed.

Lemma store_ok_invoke (l : ref) (o : Op) (w w' : World) (evs : list Event) :
  store_ok w ->
  invoke l (exec o) w = Some (tt, w', evs) ->
  store_ok w'.
Proof.
  intros Hstore Hinv.
  destruct (invoke_exec_inv l o w w' evs Hstore Hinv)
    as (b & b' & ext & Hb & Hobj & Hcfg & _ & Hvalid).
  intros l0 b0 Hb0. rewrite Hobj in Hb0.
  destruct (decide (l = l0)) as [<-|Hne].
  - rewrite list_lookup_insert_eq in Hb0 by (eapply lookup_lt_Some; exact Hb).
    now injection Hb0 as <-.
  - rewrite list_lookup_insert_ne in Hb0 by exact Hne.
    destruct (Hstore l0 b0 Hb0) as [c0 Hc0].
    exists c0. rewrite Hcfg. rewrite lookup_app_l; [exact Hc0|].
    eapply lookup_lt_Some. exact Hc0.
Qed.

Lemma registry_ok_invoke (l : ref) (o : Op) (mgr : CircuitBreakerManager)
    (w w' : World) (evs : list Event) :
  store_ok w ->
  registry_ok mgr w ->
  invoke l (exec o) w = Some (tt, w', evs) ->
  registry_ok mgr w'.
Proof.
  intros Hstore (Hok & Hinj & [d Hd]) Hinv.
  destruct (invoke_exec_inv l o w w' evs Hstore Hinv)
    as (b & b' & ext & Hb & Hobj & Hcfg & Hname & Hvalid).
  split; [|split; [exact Hinj|]].
  - intros name l0 Hl0. destruct (Hok name l0 Hl0) as (b0 & Hb0 & Hn0 & [c0 Hc0]).
    destruct (decide (l = l0)) as [<-|Hne].
    + exists b'. rewrite Hobj.
      rewrite list_lookup_insert_eq by (eapply lookup_lt_Some; exact Hb).
      split; [reflexivity|]. split; [|exact Hvalid]. congruence.
    + exists b0. rewrite Hobj, list_lookup_insert_ne by exact Hne.
      split; [exact Hb0|]. split; [exact Hn0|].
      exists c0. rewrite Hcfg. rewrite lookup_app_l; [exact Hc0|].
      eapply lookup_lt_Some. exact Hc0.
  - exists d. rewrite Hcfg. rewrite lookup_app_l; [exact Hd|].
    eapply lookup_lt_Some. exact Hd.
Qed.

Lemma registry_ok_getBreaker (name : string) (cfg : option ref)
    (mgr : CircuitBreakerManager) (w : World) :
  (forall l, cfg = Some l -> is_Some (cfgHeap w !! l)) ->
  store_ok w ->
  registry_ok mgr w ->
  store_ok (getBreaker name cfg mgr w).2 /\
  registry_ok (getBreaker name cfg mgr w).1.2 (getBreaker name cfg mgr w).2.
Proof.
  intros Hcfg Hstore Hreg.
  destruct (breakers mgr !! name) as [l|] eqn:Hl.
  - rewrite (getBreaker_known name cfg mgr w l Hl). now split.
  - rewrite (getBreaker_unknown name cfg mgr w Hl). cbn [fst snd].
    destruct Hreg as (Hok & Hinj & Hd).
    assert (Hnew : is_Some (cfgHeap w !! default (defaultConfig mgr) cfg)).
    { destruct cfg as [l|]; cbn [default]; [now apply Hcfg | exact Hd]. }
    split; [|split; [|split]]; unfold instance_ok in *;
      cbn [objHeap cfgHeap breakers defaultConfig].
    + intros l0 b0 Hb0. cbn [objHeap cfgHeap] in *.
      destruct (decide (l0 < length (objHeap w))%nat) as [Hlt|Hge].
      * rewrite lookup_app_l in Hb0 by exact Hlt. now apply (Hstore l0 b0).
      * apply lookup_lt_Some in Hb0 as Hlen.
        rewrite length_app in Hlen. cbn [length] in Hlen.
        replace l0 with (length (objHeap w)) in Hb0 by lia.
        rewrite lookup_created in Hb0. now injection Hb0 as <-.
    + intros n l0 Hl0. destruct (decide (name = n)) as [<-|Hne].
      * rewrite lookup_insert_eq in Hl0. injection Hl0 as <-.
        eexists. split; [apply lookup_created|]. split; [reflexivity | exact Hnew].
      * rewrite lookup_insert_ne in Hl0 by exact Hne.
        destruct (Hok n l0 Hl0) as (b0 & Hb0 & Hn0 & Hc0).
        exists b0. split; [|now split].
        rewrite lookup_app_l; [exact Hb0|]. eapply lookup_lt_Some. exact Hb0.
    + intros n1 n2 l0 H1 H2.
      destruct (decide (name = n1)) as [<-|Hne1];
        destruct (decide (name = n2)) as [<-|Hne2]; [reflexivity | | |].
      * rewrite lookup_insert_eq in H1. injection H1 as <-.
        rewrite lookup_insert_ne in H2 by exact Hne2.
        destruct (Hok n2 _ H2) as (b2 & Hb2 & _).
        apply lookup_lt_Some in Hb2. lia.
      * rewrite lookup_insert_eq in H2. injection H2 as <-.
        rewrite lookup_insert_ne in H1 by exact Hne1.
        destruct (Hok n1 _ H1) as (b1 & Hb1 & _).
        apply lookup_lt_Some in Hb1. lia.
      * rewrite lookup_insert_ne in H1 by exact Hne1.
        rewrite lookup_insert_ne in H2 by exact Hne2.
        now apply (Hinj n1 n2 l0).
    + exact Hd.
Qed.

Lemma registry_ok_removeBreaker (name : string) (mgr : CircuitBreakerManager)
    (w : World) :
  registry_ok mgr w -> registry_ok (removeBreaker name mgr).2 w.
Proof.
  intros (Hok & Hinj & Hd). cbn [removeBreaker snd].
  split; [|split]; cbn [breakers defaultConfig].
  - intros n l Hl. apply lookup_delete_Some in Hl as [_ Hl]. now apply Hok.
  - intros n1 n2 l H1 H2.
    apply lookup_delete_Some in H1 as [_ H1].
    apply lookup_delete_Some in H2 as [_ H2]. now apply (Hinj n1 n2 l).
  - exact Hd.
Qed.

Lemma serve_ok (r : Request) (mgr mgr' : CircuitBreakerManager) (w w' : World) :
  store_ok w -> registry_ok mgr w ->
  serve r (mgr, w) = Some (mgr', w') ->
  store_ok w' /\ registry_ok mgr' w'.
Proof.
  intros Hstore Hreg Hserve. destruct r as [name cfg | name | cfg | l o];
    cbn [serve] in Hserve.
  - assert (Hcfg : forall l, cfg = Some l -> is_Some (cfgHeap w !! l)).
    { intros l ->. destruct (cfgHeap w !! l) as [c|]; [exists c; reflexivity | discriminate]. }
    destruct (registry_ok_getBreaker name cfg mgr w Hcfg Hstore Hreg) as [Hs Hr].
    assert (Hsame : Some ((getBreaker name cfg mgr w).1.2, (getBreaker name cfg mgr w).2)
                    = Some (mgr', w')).
    { rewrite <- Hserve. destruct cfg as [l|].
      - destruct (cfgHeap w !! l); [|discriminate].
        now destruct (getBreaker name (Some l) mgr w) as [[? ?] ?].
      - now destruct (getBreaker name None mgr w) as [[? ?] ?]. }
    injection Hsame as <- <-. now split.
  - injection Hserve as <- <-. split; [exact Hstore|].
    now apply registry_ok_removeBreaker.
  - destruct (cfgHeap w !! cfg) as [c|] eqn:Hc; [|discriminate].
    injection Hserve as <- <-. split; [exact Hstore|].
    destruct Hreg as (Hok & Hinj & _). split; [exact Hok|]. split; [exact Hinj|].
    cbn [setDefaultConfig defaultConfig]. exists c. exact Hc.
  - destruct (invoke l (exec o) w) as [[[[] w1] e]|] eqn:Hinv; [|discriminate].
    injection Hserve as <- <-. split.
    + now apply (store_ok_invoke l o w w1 e).
    + now apply (registry_ok_invoke l o mgr w w1 e).
Qed.

Lemma serves_ok (rs : list Request) :
  forall (mgr mgr' : CircuitBreakerManager) (w w' : World),
    store_ok w -> registry_ok mgr w ->
    serves rs (mgr, w) = Some (mgr', w') ->
    store_ok w' /\ registry_ok mgr' w'.
Proof.
  induction rs as [|r rs IH]; intros mgr mgr' w w' Hstore Hreg Hrun;
    cbn [serves] in Hrun.
  - injection Hrun as <- <-. now split.
  - destruct (serve r (mgr, w)) as [[mgr1 w1]|] eqn:Hserve; [|discriminate].
    destruct (serve_ok r mgr mgr1 w w1 Hstore Hreg Hserve) as [Hs1 Hr1].
    now apply (IH mgr1 mgr' w1 w').
Qed.

(** X14. However a registry is used after its construction (creations,
    removals, changes of the default, calls on the instances), two names it
    manages never share an instance, and the instance under a name carries
    that name and a configuration reference that names a record. *)
Theorem registry_keeps_names_apart
    (rs : list Request) (dflt : ref) (w0 w : World) (mgr : CircuitBreakerManager)
    (n1 n2 : string) (l1 l2 : ref) :
  is_Some (cfgHeap w0 !! dflt) ->
  store_ok w0 ->
  serves rs (new_CircuitBreakerManager dflt, w0) = Some (mgr, w) ->
  breakers mgr !! n1 = Some l1 ->
  breakers mgr !! n2 = Some l2 ->
  n1 <> n2 ->
  l1 <> l2 /\ instance_ok w n1 l1.
Proof.
  intros Hd Hstore Hrun H1 H2 Hne.
  destruct (serves_ok rs (new_CircuitBreakerManager dflt) mgr w0 w Hstore) as
    [_ (Hok & Hinj & _)]; [|exact Hrun|].
  - split; [|split]; cbn [new_CircuitBreakerManager breakers defaultConfig].
    + intros name l Hl. now rewrite lookup_empty in Hl.
    + intros n n' l Hl. now rewrite lookup_empty in Hl.
    + exact Hd.
  - split; [|now apply Hok].
    intros <-. apply Hne. now apply (Hinj n1 n2 l1).
Qed.

Lemma registry_keeps_names_apart_witness :
  exists mgr w,
    serves [GetBreaker "a" None; GetBreaker "b" None;
            OnBreaker 0 (RecordFailure 1); RemoveBreaker "a";
            GetBreaker "a" None]
           (new_CircuitBreakerManager 0, mkWorld [DEFAULT_CIRCUIT_BREAKER_CONFIG] []) =
      Some (mgr, w) /\
    breakers mgr !! "a" = Some 2%nat /\
    breakers mgr !! "b" = Some 1%nat /\
    2%nat <> 1%nat /\
    instance_ok w "a" 2.
Proof.
  eexists _, _. split; [vm_compute; reflexivity|].
  split; [reflexivity|]. split; [reflexivity|].
  eapply (registry_keeps_names_apart
            [GetBreaker "a" None; GetBreaker "b" None;
             OnBreaker 0 (RecordFailure 1); RemoveBreaker "a";
             GetBreaker "a" None]
            0 (mkWorld [DEFAULT_CIRCUIT_BREAKER_CONFIG] []) _ _ "a" "b" 2 1).
  - eexists; reflexivity.
  - intros l b Hb. cbn [objHeap] in Hb. now rewrite lookup_nil in Hb.
  - vm_compute. reflexivity.
  - reflexivity.
  - reflexivity.
  - discriminate.
Defined.

(** ** The methods of the registry that visit every instance *)



(** A query succeeds on an instance whose configuration reference names a
    record; it touches no configuration record and keeps the instance's
    reference to its own. *)
Lemma canExecute_frame (now : Z) (b : CircuitBreaker) (h : list CircuitBreakerConfig) :
  is_Some (h !! config b) ->
  exists r b' evs,
    canExecute now (mkMachine b h) = Some (r, mkMachine b' h, evs) /\
    config b' = config b /\
    agentName b' = agentName b.
Proof.
  intros [c Hc]. destruct (state b) eqn:Hs.
  - rewrite (canExecute_CLOSED b h now Hs). now eexists _, _, _.
  - destruct (Z.lt_ge_cases (now - lastFailureTime b) (Config.recoveryTimeout c)).
    + rewrite (canExecute_OPEN_early b h c Hc now Hs) by lia. now eexists _, _, _.
    + rewrite (canExecute_OPEN_late b h c Hc now Hs) by lia. now eexists _, _, _.
  - rewrite (canExecute_HALF_OPEN b h c Hc now Hs). now eexists _, _, _.
Qed.

Lemma invoke_canExecute (l : ref) (now : Z) (w : World) (b : CircuitBreaker) :
  objHeap w !! l = Some b ->
  is_Some (cfgHeap w !! config b) ->
  exists r b' evs,
    invoke l (canExecute now) w =
      Some (r, mkWorld (cfgHeap w) (<[l := b']> (objHeap w)), evs) /\
    config b' = config b /\
    agentName b' = agentName b.
Proof.
  intros Hb Hc. unfold invoke. rewrite Hb.
  destruct (canExecute_frame now b (cfgHeap w) Hc) as (r & b' & evs & Hq & Hcfg & Hn).
  rewrite Hq. now exists r, b', evs.
Qed.


Lemma invoke_getStatus (l : ref) (now : Z) (w : World) :
  invoke l (getStatus now) w =
  match objHeap w !! l, invoke l (canExecute now) w with
  | Some b, Some (r, w', evs) =>
      Some (Status.mk (state b) (failureCount b) (successCount b) r, w', evs)
  | _, _ => None
  end.
Proof.
  unfold invoke. destruct (objHeap w !! l) as [b|]; [|reflexivity].
  rewrite getStatus_eq.
  now destruct (canExecute now (mkMachine b (cfgHeap w))) as [[[r m'] e]|].
Qed.

(** The answer of an instance depends on that instance and on the
    configuration records only. *)
Lemma answer_ext (w1 w2 : World) (l : ref) (now : Z) :
  objHeap w1 !! l = objHeap w2 !! l ->
  cfgHeap w1 = cfgHeap w2 ->
  answer w1 l now = answer w2 l now.
Proof.
  intros Hobj Hcfg. unfold answer, invoke. rewrite Hobj, Hcfg.
  destruct (objHeap w2 !! l) as [b|]; [|reflexivity].
  now destruct (canExecute now (mkMachine b (cfgHeap w2))) as [[[r m'] e]|].
Qed.

(** X15. [getAvailableAgents] has the effects of [getAllStatus], and the
    names it lists are those whose status snapshot says [canExecute]; the
    snapshots are in the order of the visit, one per instance visited. *)
Theorem available_agents_are_those_permitted_in_the_status
    (qs : list (string * ref * Z)) (w : World) :
  getAvailableAgents qs w =
    (fun '(sts, w', evs) =>
       ((List.filter (fun e => Status.canExecute e.2) sts).*1, w', evs))
    <$> getAllStatus qs w /\
  (forall sts w' evs,
     getAllStatus qs w = Some (sts, w', evs) -> sts.*1 = qs.*1.*1).
Proof.
  revert w. induction qs as [|[[name l] now] qs IH]; intros w.
  - split; [reflexivity|]. intros sts w' evs Hrun. cbn in Hrun.
    now injection Hrun as <- _ _.
  - cbn [getAvailableAgents getAllStatus]. rewrite invoke_getStatus.
    destruct (objHeap w !! l) as [b|] eqn:Hb.
    2:{ unfold invoke. rewrite Hb. split; [reflexivity | discriminate]. }
    destruct (invoke l (canExecute now) w) as [[[r w1] e1]|];
      [|split; [reflexivity | discriminate]].
    destruct (IH w1) as [IHrun IHnames]. rewrite IHrun.
    destruct (getAllStatus qs w1) as [[[sts w2] e2]|];
      [|split; [reflexivity | discriminate]].
    split.
    + cbn. now destruct r.
    + intros sts' w' evs Hrun. injection Hrun as <- _ _.
      cbn. f_equal. now apply (IHnames sts w2 e2).
Qed.

Lemma available_agents_are_those_permitted_in_the_status_witness :
  getAllStatus [("svc", 0%nat, 60000)] managed =
    Some ([("svc", Status.mk OPEN 5 0 true)],
          mkWorld (cfgHeap managed) [this probing], [HalfOpened "svc" 0]) /\
  [("svc", Status.mk OPEN 5 0 true)].*1 = [("svc", 0%nat, 60000)].*1.*1.
Proof.
  split; [reflexivity|].
  destruct (available_agents_are_those_permitted_in_the_status
              [("svc", 0%nat, 60000)] managed) as [_ Hnames].
  apply (Hnames _ (mkWorld (cfgHeap managed) [this probing]) [HalfOpened "svc" 0]).
  reflexivity.
Defined.

(** What [enumerates] gives: the entries visited are the entries of the
    registry, each once. *)
Lemma enumerates_lookup (es : list (string * ref)) (mgr : CircuitBreakerManager)
    (name : string) (l : ref) :
  enumerates es mgr ->
  (name, l) ∈ es <-> breakers mgr !! name = Some l.
Proof.
  unfold enumerates. intros Hperm. rewrite Hperm. apply elem_of_map_to_list.
Qed.

Lemma enumerates_NoDup (es : list (string * ref)) (mgr : CircuitBreakerManager) :
  enumerates es mgr -> NoDup es.*1.
Proof.
  unfold enumerates. intros Hperm. rewrite Hperm. apply NoDup_fst_map_to_list.
Qed.

(** In a sound registry the instances visited are distinct. *)
Lemma enumerates_NoDup_refs (es : list (string * ref)) (mgr : CircuitBreakerManager)
    (w : World) :
  registry_ok mgr w -> enumerates es mgr -> NoDup es.*2.
Proof.
  intros (_ & Hinj & _) Henum.
  pose proof (enumerates_NoDup es mgr Henum) as Hnd.
  assert (Hin : forall n l, (n, l) ∈ es -> breakers mgr !! n = Some l)
    by (intros n l; apply enumerates_lookup; exact Henum).
  clear Henum. induction es as [|[n l] es IH]; [constructor|].
  cbn [fmap list_fmap fst snd] in *. apply NoDup_cons in Hnd as [Hn Hnd].
  apply NoDup_cons. split.
  - intros Hl. apply list_elem_of_fmap in Hl as ([n' l'] & Heq & Hin').
    cbn in Heq. subst l'.
    assert (n = n').
    { apply (Hinj n n' l); apply Hin; [left | now right]. }
    subst n'. apply Hn. apply list_elem_of_fmap. now exists (n, l).
  - apply IH; [exact Hnd|]. intros n' l' Hin'. apply Hin. now right.
Qed.


Lemma managing_enumerated : enumerates [("svc", 0%nat)] managing.
Proof.
  unfold enumerates, managing. cbn [breakers].
  now rewrite map_to_list_singleton.
Defined.


Lemma getAvailableAgents_spec (qs : list (string * ref * Z)) :
  forall w : World,
    NoDup qs.*1.*2 ->
    (forall name l now, (name, l, now) ∈ qs ->
       exists b, objHeap w !! l = Some b /\ is_Some (cfgHeap w !! config b)) ->
    exists names w' evs,
      getAvailableAgents qs w = Some (names, w', evs) /\
      names =
        (List.filter (fun q => bool_decide (answer w q.1.2 q.2 = Some true)) qs).*1.*1 /\
      cfgHeap w' = cfgHeap w.
Proof.
  induction qs as [|[[name l] now] qs IH]; intros w Hnd Hvalid.
  - now exists [], w, [].
  - cbn [fmap list_fmap fst snd] in Hnd. apply NoDup_cons in Hnd as [Hl Hnd].
    destruct (Hvalid name l now ltac:(left)) as (b & Hb & Hc).
    destruct (invoke_canExecute l now w b Hb Hc) as (r & b' & e1 & Hinv & _ & _).
    assert (Hother : forall n l0 t, (n, l0, t) ∈ qs -> l0 <> l).
    { intros n l0 t Hin ->. apply Hl.
      apply list_elem_of_fmap. exists (n, l). split; [reflexivity|].
      apply list_elem_of_fmap. now exists (n, l, t). }
    set (w1 := mkWorld (cfgHeap w) (<[l := b']> (objHeap w))) in *.
    destruct (IH w1 Hnd) as (names & w' & evs & Hrun & Hnames & Hcfg).
    { intros n l0 t Hin. destruct (Hvalid n l0 t ltac:(now right)) as (b0 & Hb0 & Hc0).
      exists b0. subst w1. cbn [objHeap cfgHeap].
      rewrite list_lookup_insert_ne by (intros Heq; now apply (Hother n l0 t)).
      now split. }
    cbn [getAvailableAgents]. rewrite Hinv, Hrun.
    eexists _, _, _. split; [reflexivity|]. split; [|exact Hcfg].
    cbn [List.filter fst snd].
    assert (Hhead : answer w l now = Some r) by (unfold answer; now rewrite Hinv).
    rewrite Hhead.
    assert (Hrest :
      List.filter (fun q => bool_decide (answer w q.1.2 q.2 = Some true)) qs =
      List.filter (fun q => bool_decide (answer w1 q.1.2 q.2 = Some true)) qs).
    { apply List.filter_ext_in. intros [[n l0] t] Hin. cbn [fst snd].
      apply list_elem_of_In in Hin.
      rewrite (answer_ext w1 w l0 t); [reflexivity | | reflexivity].
      subst w1. cbn [objHeap].
      apply list_lookup_insert_ne. intros Heq. now apply (Hother n l0 t). }
    rewrite Hrest, Hnames. now destruct r.
Qed.

(** X17. [getAvailableAgents] on a sound registry lists, in the order of
    the visit, the names of the managed instances that would permit a query
    if asked alone: the queries made on the way do not influence each other,
    and no configuration record is touched. *)
Theorem getAvailableAgents_lists_the_permitting
    (qs : list (string * ref * Z)) (mgr : CircuitBreakerManager) (w : World) :
  registry_ok mgr w ->
  enumerates qs.*1 mgr ->
  exists names w' evs,
    getAvailableAgents qs w = Some (names, w', evs) /\
    names =
      (List.filter (fun q => bool_decide (answer w q.1.2 q.2 = Some true)) qs).*1.*1 /\
    cfgHeap w' = cfgHeap w.
Proof.
  intros Hreg Henum. apply getAvailableAgents_spec.
  - now apply (enumerates_NoDup_refs qs.*1 mgr w).
  - intros name l now Hin. destruct Hreg as (Hok & _ & _).
    destruct (Hok name l) as (b & Hb & _ & Hc); [|now exists b].
    apply (enumerates_lookup qs.*1 mgr name l Henum).
    apply list_elem_of_fmap. now exists (name, l, now).
Qed.

Lemma getAvailableAgents_lists_the_permitting_witness :
  exists names w' evs,
    getAvailableAgents [("svc", 0%nat, 60000)] managed = Some (names, w', evs) /\
    names =
      (List.filter (fun q => bool_decide (answer managed q.1.2 q.2 = Some true))
                   [("svc", 0%nat, 60000)]).*1.*1 /\
    cfgHeap w' = cfgHeap managed.
Proof.
  apply (getAvailableAgents_lists_the_permitting
           [("svc", 0%nat, 60000)] managing managed managing_ok managing_enumerated).
Defined.

(** *** [resetAll] *)

Lemma invoke_reset (l : ref) (w : World) (b : CircuitBreaker) :
  objHeap w !! l = Some b ->
  invoke l reset w =
  Some (tt,
        mkWorld (cfgHeap w)
                (<[l := new_CircuitBreaker (agentName b) (config b)]> (objHeap w)),
        [WasReset (agentName b)]).
Proof. intros Hb. unfold invoke. now rewrite Hb, reset_eq. Qed.

Lemma resetAll_spec (es : list (string * ref)) :
  forall w : World,
    (forall name l, (name, l) ∈ es ->
       exists b, objHeap w !! l = Some b /\ agentName b = name) ->
    exists w',
      resetAll es w = Some (w', (fun e => WasReset e.1) <$> es) /\
      cfgHeap w' = cfgHeap w /\
      (forall l, l ∉ es.*2 -> objHeap w' !! l = objHeap w !! l) /\
      (forall name l, (name, l) ∈ es ->
         exists b, objHeap w !! l = Some b /\
                   objHeap w' !! l = Some (new_CircuitBreaker name (config b))).
Proof.
  induction es as [|[name l] es IH]; intros w Hvalid.
  - exists w. split; [reflexivity|]. split; [reflexivity|]. split; [reflexivity|].
    intros n l Hin. inversion Hin.
  - destruct (Hvalid name l ltac:(left)) as (b & Hb & Hname).
    pose proof (lookup_lt_Some _ _ _ Hb) as Hlt.
    set (w1 := mkWorld (cfgHeap w)
                 (<[l := new_CircuitBreaker (agentName b) (config b)]> (objHeap w))).
    assert (Hstep : forall (l0 : ref) b0, objHeap w !! l0 = Some b0 ->
              exists b1, objHeap w1 !! l0 = Some b1 /\
                         agentName b1 = agentName b0 /\ config b1 = config b0).
    { intros l0 b0 Hb0. subst w1. cbn [objHeap].
      destruct (decide (l = l0)) as [Heq|Hne].
      - rewrite <- Heq in Hb0 |- *. rewrite list_lookup_insert_eq by exact Hlt.
        eexists. split; [reflexivity|]. rewrite Hb in Hb0. injection Hb0 as <-.
        now split.
      - rewrite list_lookup_insert_ne by exact Hne. now exists b0. }
    destruct (IH w1) as (w' & Hrun & Hcfg & Hout & Hin').
    { intros n l0 Hin. destruct (Hvalid n l0 ltac:(now right)) as (b0 & Hb0 & Hn0).
      destruct (Hstep l0 b0 Hb0) as (b1 & Hb1 & Hn1 & _).
      exists b1. split; [exact Hb1 | congruence]. }
    cbn [resetAll]. rewrite (invoke_reset l w b Hb). fold w1. rewrite Hrun.
    exists w'. split; [cbn; now rewrite Hname|].
    split; [exact Hcfg|]. split.
    + intros l0 Hl0. cbn [fmap list_fmap snd] in Hl0.
      apply not_elem_of_cons in Hl0 as [Hne Hl0].
      rewrite (Hout l0 Hl0). subst w1. cbn [objHeap].
      now apply list_lookup_insert_ne.
    + intros n l0 Hin. destruct (Hvalid n l0 Hin) as (b0 & Hb0 & Hn0).
      exists b0. split; [exact Hb0|].
      destruct (Hstep l0 b0 Hb0) as (b1 & Hb1 & Hn1 & Hc1).
      destruct (decide (l0 ∈ es.*2)) as [Hl0|Hl0].
      * apply list_elem_of_fmap in Hl0 as ([n' l'] & Heq & Hin2). cbn in Heq. subst l'.
        destruct (Hin' n' l0 Hin2) as (b2 & Hb2 & Hres).
        rewrite Hb1 in Hb2. injection Hb2 as <-.
        destruct (Hvalid n' l0 ltac:(now right)) as (b3 & Hb3 & Hn3).
        rewrite Hb0 in Hb3. injection Hb3 as <-.
        rewrite Hres. f_equal. f_equal; congruence.
      * apply elem_of_cons in Hin as [Heq|Hin].
        -- injection Heq as -> ->. rewrite (Hout l Hl0). subst w1. cbn [objHeap].
           rewrite list_lookup_insert_eq by exact Hlt.
           rewrite Hb in Hb0. injection Hb0 as <-. now rewrite Hname.
        -- exfalso. apply Hl0. apply list_elem_of_fmap. now exists (n, l0).
Qed.

(** X18. [resetAll] on a sound registry leaves every managed instance as
    newly constructed under its name, with the configuration reference it
    had; it emits one "reset" per managed name, in the order of the visit, and
    touches neither the configuration records nor any instance that the
    registry no longer manages. *)
Theorem resetAll_resets_the_managed_only
    (es : list (string * ref)) (mgr : CircuitBreakerManager) (w : World) :
  registry_ok mgr w ->
  enumerates es mgr ->
  exists w',
    resetAll es w = Some (w', (fun e => WasReset e.1) <$> es) /\
    cfgHeap w' = cfgHeap w /\
    (forall name l, breakers mgr !! name = Some l ->
       exists b, objHeap w !! l = Some b /\
                 objHeap w' !! l = Some (new_CircuitBreaker name (config b))) /\
    (forall l, (forall name, breakers mgr !! name <> Some l) ->
               objHeap w' !! l = objHeap w !! l).
Proof.
  intros (Hok & _ & _) Henum.
  destruct (resetAll_spec es w) as (w' & Hrun & Hcfg & Hout & Hin).
  { intros name l Hl. apply (enumerates_lookup es mgr name l Henum) in Hl.
    destruct (Hok name l Hl) as (b & Hb & Hn & _). now exists b. }
  exists w'. split; [exact Hrun|]. split; [exact Hcfg|]. split.
  - intros name l Hl. apply Hin. now apply (enumerates_lookup es mgr name l Henum).
  - intros l Hl. apply Hout. intros Hmem.
    apply list_elem_of_fmap in Hmem as ([n l'] & Heq & Hmem). cbn in Heq. subst l'.
    apply (Hl n). now apply (enumerates_lookup es mgr n l Henum).
Qed.

Lemma resetAll_resets_the_managed_only_witness :
  exists w',
    resetAll [("svc", 0%nat)] managed = Some (w', [WasReset "svc"]) /\
    cfgHeap w' = cfgHeap managed /\
    objHeap w' !! 0%nat = Some (new_CircuitBreaker "svc" 0).
Proof.
  destruct (resetAll_resets_the_managed_only [("svc", 0%nat)] managing managed
              managing_ok managing_enumerated)
    as (w' & Hrun & Hcfg & Hin & _).
  exists w'. split; [exact Hrun|]. split; [exact Hcfg|].
  destruct (Hin "svc" 0%nat eq_refl) as (b & Hb & Hres).
  injection Hb as <-. exact Hres.
Defined.

(** ** More on one breaker *)

(** X19. The six readers change nothing and emit nothing; they return the
    fields, and exactly one of [isClosed], [isOpen], [isHalfOpen] answers
    true, the one that names the state. *)
Theorem readers_are_pure (m : Machine) :
  getState m = Some (state (this m), m, []) /\
  getFailureCount m = Some (failureCount (this m), m, []) /\
  getSuccessCount m = Some (successCount (this m), m, []) /\
  exists c o h,
    isClosed m = Some (c, m, []) /\
    isOpen m = Some (o, m, []) /\
    isHalfOpen m = Some (h, m, []) /\
    (c, o, h) =
    match state (this m) with
    | CLOSED => (true, false, false)
    | OPEN => (false, true, false)
    | HALF_OPEN => (false, false, true)
    end.
Proof.
  destruct m as [[s fc sc lft hoa cfg name] h].
  repeat (split; [reflexivity|]).
  eexists _, _, _. repeat (split; [reflexivity|]).
  now destruct s.
Qed.

(** [reset] never fails and leaves the breaker as newly constructed
    under its name, whatever its state and counters were; it keeps the
    configuration reference the breaker had, so a configuration set by
    [setConfig] survives it, and it writes no configuration record. *)
Lemma reset_is_as_constructed (m : Machine) :
  reset m =
  Some (tt,
        mkMachine (new_CircuitBreaker (agentName (this m)) (config (this m)))
                  (configs m),
        [WasReset (agentName (this m))]).
Proof. destruct m as [b h]. apply reset_eq. Qed.

(** X20. In a Closed breaker every reported success forgives one counted
    failure and no more: after [n] successes in a row [failureCount] is
    [max 0 (failureCount - n)], and the breaker is still Closed. *)
Theorem successes_forgive_one_failure_each (n : nat) :
  forall m : Machine,
    state (this m) = CLOSED ->
    0 <= failureCount (this m) ->
    exists m',
      execs (replicate n RecordSuccess) m = Some (tt, m', []) /\
      state (this m') = CLOSED /\
      failureCount (this m') = Z.max 0 (failureCount (this m) - Z.of_nat n) /\
      successCount (this m') = successCount (this m) + Z.of_nat n.
Proof.
  induction n as [|n IH]; intros m Hs Hf.
  - exists m. cbn. repeat split; [assumption | lia | lia].
  - destruct m as [b h]. cbn [this] in *.
    cbn [replicate]. rewrite execs_cons. cbn [exec].
    rewrite (recordSuccess_CLOSED b h Hs).
    destruct (IH (mkMachine (set_failureCount (Z.max 0 (failureCount b - 1))
                               (set_successCount (successCount b + 1) b)) h))
      as (m' & Hrun & Hs' & Hf' & Hsc'); [exact Hs | cbn; lia |].
    exists m'. rewrite Hrun. cbn in Hf', Hsc'.
    split; [reflexivity|]. split; [exact Hs'|]. split; lia.
Qed.

Lemma successes_forgive_one_failure_each_witness :
  exists m',
    execs (replicate 6 RecordSuccess) strained = Some (tt, m', []) /\
    state (this m') = CLOSED /\
    failureCount (this m') = Z.max 0 (4 - 6) /\
    successCount (this m') = 0 + 6.
Proof.
  apply (successes_forgive_one_failure_each 6 strained); [reflexivity | simpl; lia].
Defined.

(** X21. With a threshold of two or more, a breaker in which every failure
    is followed by a success never opens: after any number of such pairs it is
    Closed with no failure counted. *)
Theorem alternating_outcomes_never_trip (nows : list Z) :
  forall (m : Machine) (c : CircuitBreakerConfig),
    effectiveConfig m = Some c ->
    state (this m) = CLOSED ->
    failureCount (this m) = 0 ->
    2 <= Config.failureThreshold c ->
    exists m',
      execs (concat ((fun now => [RecordFailure now; RecordSuccess]) <$> nows)) m =
        Some (tt, m', []) /\
      state (this m') = CLOSED /\
      failureCount (this m') = 0 /\
      effectiveConfig m' = Some c.
Proof.
  induction nows as [|now nows IH]; intros m c Hc Hs Hf Hthr.
  - exists m. now cbn.
  - destruct m as [b h]. unfold effectiveConfig in *. cbn [this configs] in *.
    set (b1 := set_failureCount (Z.max 0 (failureCount b + 1 - 1))
                 (set_successCount (successCount b + 1)
                    (set_lastFailureTime now
                       (set_failureCount (failureCount b + 1) b)))).
    assert (Hpair : execs [RecordFailure now; RecordSuccess] (mkMachine b h) =
                    Some (tt, mkMachine b1 h, [])).
    { rewrite execs_cons. cbn [exec].
      rewrite (recordFailure_CLOSED_below b h c Hc now Hs) by lia.
      rewrite execs_cons. cbn [exec].
      erewrite recordSuccess_CLOSED by exact Hs. reflexivity. }
    destruct (IH (mkMachine b1 h) c) as (m' & Hrun & Hs' & Hf' & Hc');
      [exact Hc | exact Hs | cbn; lia | exact Hthr |].
    exists m'. rewrite fmap_cons. cbn [concat].
    rewrite execs_app, Hpair, Hrun. now repeat split.
Qed.

Lemma alternating_outcomes_never_trip_witness :
  exists m',
    execs (concat ((fun now => [RecordFailure now; RecordSuccess]) <$> [1; 2; 3; 4; 5; 6]))
          configured = Some (tt, m', []) /\
    state (this m') = CLOSED /\
    failureCount (this m') = 0 /\
    effectiveConfig m' = Some (Config.mk 2 1000 1).
Proof.
  apply (alternating_outcomes_never_trip [1; 2; 3; 4; 5; 6] configured
           (Config.mk 2 1000 1));
    [reflexivity | reflexivity | reflexivity | simpl; lia].
Defined.

(** X22. A call on one instance leaves every other instance as it was,
    also the configuration it reads, even when both refer to one
    configuration record. *)
Theorem instances_are_independent
    (l l' : ref) (o : Op) (w w' : World) (evs : list Event) (b' : CircuitBreaker) :
  store_ok w ->
  invoke l (exec o) w = Some (tt, w', evs) ->
  l' <> l ->
  objHeap w !! l' = Some b' ->
  objHeap w' !! l' = Some b' /\
  cfgHeap w' !! config b' = cfgHeap w !! config b'.
Proof.
  intros Hstore Hinv Hne Hb'.
  destruct (invoke_exec_inv l o w w' evs Hstore Hinv)
    as (b & b1 & ext & Hb & Hobj & Hcfg & _ & _).
  split.
  - rewrite Hobj, list_lookup_insert_ne by (intros Heq; now apply Hne). exact Hb'.
  - rewrite Hcfg. apply lookup_app_l.
    destruct (Hstore l' b' Hb') as [c Hc]. eapply lookup_lt_Some. exact Hc.
Qed.

Lemma instances_are_independent_witness :
  exists w',
    invoke 0 (exec (SetConfig (Config.mkPartial (Some 1) None None)))
           (mkWorld [DEFAULT_CIRCUIT_BREAKER_CONFIG]
                    [new_CircuitBreaker "a" 0; new_CircuitBreaker "b" 0]) =
      Some (tt, w', []) /\
    objHeap w' !! 1%nat = Some (new_CircuitBreaker "b" 0) /\
    cfgHeap w' !! 0%nat = Some DEFAULT_CIRCUIT_BREAKER_CONFIG.
Proof.
  eexists. split; [reflexivity|].
  apply (instances_are_independent 0 1
           (SetConfig (Config.mkPartial (Some 1) None None))
           (mkWorld [DEFAULT_CIRCUIT_BREAKER_CONFIG]
                    [new_CircuitBreaker "a" 0; new_CircuitBreaker "b" 0])
           _ [] (new_CircuitBreaker "b" 0)).
  - intros l b Hb. destruct l as [|[|l]]; cbn in Hb; [| |discriminate];
      injection Hb as <-; eexists; reflexivity.
  - reflexivity.
  - discriminate.
  - reflexivity.
Defined.
